(** * Lookit API: forms, template tags and the study-type migration

    A shallow embedding of
      - [studies/forms.py]            (age-range and JSON validation),
      - [exp/templatetags/exp_extras.py] (query-string state transform),
      - [web/templatetags/web_extras.py] (navigation links, analytics tag,
        breadcrumb block),
      - [studies/migrations/0093_remove_studytype_configuration.py]
    followed by the properties stated about them.

    Python strings are modelled as [string] (one [ascii] per code point, code
    points below 256), Python integers as [Z], Python floats as IEEE-754
    binary64 through [SpecFloat], and raised exceptions as the [Raise] case
    of [result]. *)

From Stdlib Require Import ZArith QArith List String Ascii Bool Lia DecimalString.
From Corelib Require Import SpecFloat.
From stdpp Require Import base list strings gmap.

Open Scope string_scope.
Open Scope list_scope.

(** ** Python values, exceptions and results *)

Inductive exception : Type :=
  | ValidationError (message : string)
  | IndexError
  | OverflowError
  | DoesNotExist
  | MultipleObjectsReturned
  | NoReverseMatch
  | KeyError
  | TypeError
  | ZeroDivisionError
  | JSONDecodeError.

Inductive result (A : Type) : Type :=
  | Return (a : A)
  | Raise (e : exception).

Arguments Return {A} a.
Arguments Raise {A} e.

#[global] Instance result_ret : MRet result := fun A a => Return a.

#[global] Instance result_bind : MBind result := fun A B f m =>
  match m with
  | Return a => f a
  | Raise e => Raise e
  end.

(** The values that reach the modelled code from templates and settings. *)
Inductive pyval : Type :=
  | PyNone
  | PyBool (b : bool)
  | PyInt (n : Z)
  | PyStr (s : string).

#[global] Instance pyval_eq_dec : EqDecision pyval.
Proof. solve_decision. Defined.

(** Python truthiness, as tested by [if value:]. *)
Definition truthy (v : pyval) : bool :=
  match v with
  | PyNone => false
  | PyBool b => b
  | PyInt n => negb (n =? 0)%Z
  | PyStr s => negb (String.eqb s EmptyString)
  end.

(** [str(value)], also what an f-string interpolates. *)
Definition py_str (v : pyval) : string :=
  match v with
  | PyNone => "None"
  | PyBool true => "True"
  | PyBool false => "False"
  | PyInt n => NilZero.string_of_int (Z.to_int n)
  | PyStr s => s
  end.

(** ** String helpers *)

Definition dquote : string := String (ascii_of_nat 34) EmptyString.
Definition newline : ascii := ascii_of_nat 10.
Definition nl : string := String newline EmptyString.

(** [sep.join(parts)] *)
Definition join (sep : string) (parts : list string) : string :=
  String.concat sep parts.

(** [str.isspace] on one code point below 256. *)
Definition isspace (c : ascii) : bool :=
  let n := nat_of_ascii c in
  (Nat.leb 9 n && Nat.leb n 13) || (Nat.leb 28 n && Nat.leb n 32)
  || Nat.eqb n 133 || Nat.eqb n 160.

Fixpoint lstrip (s : string) : string :=
  match s with
  | EmptyString => EmptyString
  | String c s' => if isspace c then lstrip s' else s
  end.

Fixpoint string_rev (s : string) : string :=
  match s with
  | EmptyString => EmptyString
  | String c s' => string_rev s' +:+ String c EmptyString
  end.

Definition rstrip (s : string) : string := string_rev (lstrip (string_rev s)).

(** [str.strip()] with no argument. *)
Definition strip (s : string) : string := rstrip (lstrip s).

Fixpoint string_forallb (p : ascii -> bool) (s : string) : bool :=
  match s with
  | EmptyString => true
  | String c s' => p c && string_forallb p s'
  end.




(** ** textwrap.dedent (CPython 3.8 to 3.13, the regular-expression version) *)










(** ** web/templatetags/web_extras.py *)

(** The request object, as far as the template tags read it: [request.path]
    and [request.GET] (an ordered multi-valued dictionary, see below). *)
Definition QueryDict : Type := list (string * list pyval).

Record Request : Type := {
  path : string;
  GET : QueryDict
}.

Section WebExtras.
(** [project.settings.GOOGLE_TAG_MANAGER_ID], Django's [reverse] (which raises
    [NoReverseMatch] on an unknown name) and [gettext] are not part of the
    modelled files: they are taken as given. *)
Variable GOOGLE_TAG_MANAGER_ID : pyval.
Variable reverse : string -> result string.
Variable gettext : string -> string.

(** [mark_safe] only tags its argument as safe HTML. *)
Definition mark_safe (s : string) : string := s.


Definition active_nav (request : Request) (url : string) : bool :=
  String.eqb (path request) url.



(** The local variables of [nav_link] just before the anchor is formatted:
    the class list, the [aria_current] attribute text and the href. *)
Record nav_state : Type := {
  nav_classes : list string;
  nav_aria_current : string;
  nav_href : string
}.

Definition default_html_classes : list string :=
  ["nav-link"; "navbar-link"; "link-secondary"; "text-center"; "px-3"].

Definition nav_link_state (request : Request) (url_name : string)
    (html_classes : option (list string)) (queryString : option string)
    (reverse_url : bool) : result nav_state :=
  let html_classes :=
    match html_classes with
    | None => default_html_classes
    | Some classes => classes
    end in
  url ← (if reverse_url then reverse url_name else Return url_name);
  let active := active_nav request url in
  let html_classes :=
    if active then html_classes ++ ["active"; "btn-secondary"] else html_classes in
  let aria_current :=
    if active then " aria-current=" +:+ dquote +:+ "page" +:+ dquote
    else EmptyString in
  let url :=
    match queryString with
    | Some q => if String.eqb q EmptyString then url else url +:+ q
    | None => url
    end in
  Return {| nav_classes := html_classes;
            nav_aria_current := aria_current;
            nav_href := url |}.

Definition nav_a_tag (st : nav_state) (text : string) : string :=
  "<a class=" +:+ dquote +:+ join " " (nav_classes st) +:+ dquote
    +:+ nav_aria_current st
    +:+ " href=" +:+ dquote +:+ nav_href st +:+ dquote +:+ ">"
    +:+ gettext text +:+ "</a>".

Definition nav_link (request : Request) (url_name text : string)
    (html_classes : option (list string)) (queryString : option string)
    (list_ reverse_url : bool) : result string :=
  st ← nav_link_state request url_name html_classes queryString reverse_url;
  if list_
  then Return (mark_safe ("<li class=" +:+ dquote +:+ "nav-item" +:+ dquote +:+ ">"
                            +:+ nav_a_tag st text +:+ "</li>"))
  else Return (mark_safe (nav_a_tag st text)).
End WebExtras.

Module BreadcrumbNode.
Section Render.
(** The type of template contexts; a node renders to a string in one. *)
Variable TemplateContext : Type.

(** A template node: its identity as a Python object and what its
    [render] returns in a context. *)
Record Node : Type := {
  node_id : nat;
  node_render : TemplateContext -> string
}.

(** [a == b] on nodes; Django's [Node] defines no [__eq__], so equality is
    identity, and this is the test [list.remove] uses. *)
Definition same_node (a b : Node) : bool := Nat.eqb (node_id a) (node_id b).

(** [nodelist.remove(node)]: drops the first element equal to [node]. *)
Fixpoint list_remove (node : Node) (nodelist : list Node) : list Node :=
  match nodelist with
  | [] => []
  | n :: rest => if same_node n node then rest else n :: list_remove node rest
  end.

(** [nodelist.pop()]: the last element and the list without it. *)
Definition list_pop (nodelist : list Node) : result (Node * list Node) :=
  match last nodelist with
  | Some n => Return (n, removelast nodelist)
  | None => Raise IndexError
  end.

(** [zip(a, a)] over one shared iterator:
    s -> (s0, s1), (s2, s3), (s4, s5), ... *)
Fixpoint pairwise {A : Type} (iterable : list A) : list (A * A) :=
  match iterable with
  | a :: b :: rest => (a, b) :: pairwise rest
  | _ => []
  end.

Variable context : TemplateContext.

(** [not node.render(context).strip()] *)
Definition renders_blank (node : Node) : bool :=
  String.eqb (strip (node_render node context)) EmptyString.

(** The loop [for node in self.nodelist: ...] that removes from the list it
    walks. The list iterator holds an index [i]; each round reads
    [nodelist[i]] from the list as it is then, and stops once [i] is past
    its end. [fuel] bounds the rounds; [length nodelist] rounds always
    suffice since [i] grows by one each round. *)
Fixpoint remove_empty_loop (fuel i : nat) (nodelist : list Node) : list Node :=
  match fuel with
  | O => nodelist
  | S fuel' =>
      match nodelist !! i with
      | None => nodelist
      | Some node =>
          if renders_blank node
          then remove_empty_loop fuel' (S i) (list_remove node nodelist)
          else remove_empty_loop fuel' (S i) nodelist
      end
  end.

Definition remove_empty_nodes (nodelist : list Node) : list Node :=
  remove_empty_loop (length nodelist) 0 nodelist.

Definition breadcrumb_item (ab : Node * Node) : list string :=
  [ "<li class=" +:+ dquote +:+ "breadcrumb-item" +:+ dquote +:+ ">";
    "<a href=" +:+ dquote +:+ node_render (fst ab) context +:+ dquote +:+ ">"
      +:+ node_render (snd ab) context +:+ "</a>";
    "</li>" ].

Definition breadcrumb_current (last_node : Node) : string :=
  "<li class=" +:+ dquote +:+ "breadcrumb-item active" +:+ dquote
    +:+ " aria-current=" +:+ dquote +:+ "page" +:+ dquote +:+ ">"
    +:+ node_render last_node context +:+ "</li>".

Definition breadcrumb_open : list string :=
  [ "<nav aria-label=" +:+ dquote +:+ "breadcrumb" +:+ dquote
      +:+ " class=" +:+ dquote +:+ "my-2 breadcrumb" +:+ dquote +:+ ">";
    "<ol class=" +:+ dquote +:+ "breadcrumb" +:+ dquote +:+ ">" ].

(** [render] works on [self.nodelist] in place: besides the rendered text
    (or the exception raised) it yields the node list it leaves behind. *)
Definition render (nodelist : list Node) : result string * list Node :=
  match nodelist with
  | [] => (Return EmptyString, nodelist)
  | _ =>
      let nodelist := remove_empty_nodes nodelist in
      match list_pop nodelist with
      | Raise e => (Raise e, nodelist)
      | Return (last_node, nodelist) =>
          let result :=
            breadcrumb_open
              ++ concat (map breadcrumb_item (pairwise nodelist))
              ++ [breadcrumb_current last_node; "</ol></nav>"] in
          (Return (join EmptyString result), nodelist)
      end
  end.
End Render.

Arguments node_id {TemplateContext} n.
Arguments node_render {TemplateContext} n _.
Arguments Build_Node {TemplateContext} _ _.
Arguments render {TemplateContext} context nodelist.
Arguments remove_empty_nodes {TemplateContext} context nodelist.
Arguments remove_empty_loop {TemplateContext} context fuel i nodelist.
Arguments renders_blank {TemplateContext} context node.
Arguments same_node {TemplateContext} a b.
Arguments list_remove {TemplateContext} node nodelist.
Arguments list_pop {TemplateContext} nodelist.
Arguments breadcrumb_item {TemplateContext} context ab.
Arguments breadcrumb_current {TemplateContext} context last_node.
End BreadcrumbNode.

(** ** exp/templatetags/exp_extras.py *)

(** Django's [QueryDict] keeps its keys in insertion order and a list of
    values per key. [updated[key] = value] replaces the whole list of an
    existing key in place and appends a new key at the end. *)
Fixpoint setitem (key : string) (value : pyval) (d : QueryDict) : QueryDict :=
  match d with
  | [] => [(key, [value])]
  | (k, vs) :: rest =>
      if String.eqb k key then (k, [value]) :: rest
      else (k, vs) :: setitem key value rest
  end.

(** [d.getlist(key)] when the key is present. *)
Fixpoint getlist (key : string) (d : QueryDict) : option (list pyval) :=
  match d with
  | [] => None
  | (k, vs) :: rest => if String.eqb k key then Some vs else getlist key rest
  end.

Definition keys (d : QueryDict) : list string := map fst d.

(** UTF-8 bytes of a string of code points below 256. *)
Definition utf8_encode_char (c : ascii) : list N :=
  let n := N_of_ascii c in
  if (n <? 128)%N then [n]
  else [N.lor 192 (N.shiftr n 6); N.lor 128 (N.land n 63)].

Fixpoint utf8_encode (s : string) : list N :=
  match s with
  | EmptyString => []
  | String c s' => utf8_encode_char c ++ utf8_encode s'
  end.

Definition hex_digit (n : N) : ascii :=
  if (n <? 10)%N then ascii_of_N (48 + n) else ascii_of_N (55 + n).

(** [urllib.parse.quote_plus] on one byte: letters, digits and [_.-~] are
    kept, a space becomes [+], any other byte is [%XX]. *)
Definition quote_plus_byte (b : N) : string :=
  if ((48 <=? b) && (b <=? 57) || (65 <=? b) && (b <=? 90)
      || (97 <=? b) && (b <=? 122)
      || (b =? 95) || (b =? 46) || (b =? 45) || (b =? 126))%N
  then String (ascii_of_N b) EmptyString
  else if (b =? 32)%N then "+"
  else String "%"%char
         (String (hex_digit (N.shiftr b 4))
            (String (hex_digit (N.land b 15)) EmptyString)).

Definition quote_plus (s : string) : string :=
  join EmptyString (map quote_plus_byte (utf8_encode s)).

(** [QueryDict.urlencode()]: one [key=value] per value, in order, joined
    with [&]. *)
Definition urlencode_item (k : string) (v : pyval) : string :=
  quote_plus k +:+ "=" +:+ quote_plus (py_str v).

Definition urlencode (d : QueryDict) : string :=
  join "&" (flat_map (fun kv => map (urlencode_item (fst kv)) (snd kv)) d).

(** [if kwargs.get(key): updated[key] = kwargs.get(key)] *)
Definition override (kwargs : gmap string pyval) (key : string)
    (updated : QueryDict) : QueryDict :=
  match kwargs !! key with
  | Some value => if truthy value then setitem key value updated else updated
  | None => updated
  end.

(** The dictionary [updated] of [query_transform] just before it is encoded. *)
Definition query_transform_updated (request : Request)
    (kwargs : gmap string pyval) : QueryDict :=
  let updated := GET request in
  let updated := override kwargs "state" updated in
  let updated := override kwargs "page" updated in
  let updated := override kwargs "match" updated in
  let updated := override kwargs "sort" updated in
  updated.

Definition query_transform (request : Request)
    (kwargs : gmap string pyval) : string :=
  urlencode (query_transform_updated request kwargs).

(** ** studies/migrations/0093_remove_studytype_configuration.py *)

Definition NAMES : gmap string (gmap string string) :=
  {[ "external" :=
       {[ "old" := "External";
          "new" := "External Study (Choose this if you are posting a study link rather using an experiment builder)" ]};
     "efp" :=
       {[ "old" := "Ember Frame Player (default)";
          "new" := "Lookit/Ember Frame Player (Default experiment builder)" ]} ]}.

(** A row of the study-type catalog: its primary key and display name. *)
Record StudyType : Type := {
  pk : Z;
  name : string
}.

(** [NAMES[entry][key]]; both keys are present wherever the migration looks
    them up, a missing one is a [KeyError]. *)
Definition names_lookup (entry key : string) : option string :=
  NAMES !! entry ≫= fun d => d !! key.

(** [study_type.objects.get(name=n)] *)
Definition objects_get (n : string) (table : list StudyType) : result StudyType :=
  match filter (fun row => name row = n) table with
  | [] => Raise DoesNotExist
  | [row] => Return row
  | _ => Raise MultipleObjectsReturned
  end.

(** [row.save()] of a row read from the table: an update by primary key. *)
Definition save (row : StudyType) (table : list StudyType) : list StudyType :=
  map (fun r => if (pk r =? pk row)%Z then row else r) table.

(** [obj = objects.get(name=NAMES[entry][from_key]); obj.name = NAMES[entry][to_key]; obj.save()] *)
Definition rename_entry (entry from_key to_key : string)
    (table : list StudyType) : result (list StudyType) :=
  match names_lookup entry from_key, names_lookup entry to_key with
  | Some from_name, Some to_name =>
      row ← objects_get from_name table;
      Return (save {| pk := pk row; name := to_name |} table)
  | _, _ => Raise KeyError
  end.

Definition study_type_names (from_key to_key : string)
    (table : list StudyType) : result (list StudyType) :=
  table ← rename_entry "efp" from_key to_key table;
  rename_entry "external" from_key to_key table.

Definition update_study_type_names (table : list StudyType) : result (list StudyType) :=
  study_type_names "old" "new" table.

Definition revert_study_type_names (table : list StudyType) : result (list StudyType) :=
  study_type_names "new" "old" table.

(** ** Python floats and true division *)

(** Python's [float] is IEEE-754 binary64: a 53-bit significand, exponents
    below 1024, round to nearest with ties to even. *)
Definition prec : Z := 53.
Definition emax : Z := 1024.

Definition fadd : spec_float -> spec_float -> spec_float := SFadd prec emax.

(** [a > b] on floats. *)
Definition fgt (a b : spec_float) : bool := SFltb b a.

(** A float result that left the finite range raises in the two conversions
    below; float additions do not raise. *)
Definition check_overflow (f : spec_float) : result spec_float :=
  match f with
  | S754_infinity _ => Raise OverflowError
  | _ => Return f
  end.

(** The conversion of an [int] operand of a mixed [int + float]: the nearest
    float, [OverflowError] when there is none in range. *)
Definition float_of_int (n : Z) : result spec_float :=
  check_overflow (binary_normalize prec emax n 0 false).

(** [a / b] on two [int]s: the correctly rounded quotient. *)
Definition int_truediv (a b : Z) : result spec_float :=
  match b with
  | Z0 => Raise ZeroDivisionError
  | _ =>
      let negate := xorb (a <? 0)%Z (b <? 0)%Z in
      match a with
      | Z0 => Return (S754_zero negate)
      | _ =>
          let '(mz, ez, lz) :=
            SFdiv_core_binary prec emax (Z.abs a) 0 (Z.abs b) 0 in
          check_overflow (binary_round_aux prec emax negate mz ez lz)
      end
  end.

(** An operand of [/] or [+] that must be an [int]: [bool] is one, [None]
    and [str] raise [TypeError]. *)
Definition as_int (v : option pyval) : result Z :=
  match v with
  | Some (PyInt n) => Return n
  | Some (PyBool b) => Return (if b then 1 else 0)%Z
  | _ => Raise TypeError
  end.

(** ** studies/forms.py *)

Module BaseStudyForm.

Definition error_message : string :=
  "The maximum age must be greater than the minimum age.".

(** [years + months/12 + days/365], evaluated left to right in floats. *)
Definition age_total (years months days : option pyval) : result spec_float :=
  y ← as_int years;
  m ← as_int months;
  ym ← (q ← int_truediv m 12; f ← float_of_int y; Return (fadd f q));
  d ← as_int days;
  q ← int_truediv d 365;
  Return (fadd ym q).

Definition clean (cleaned_data : gmap string pyval) : result (gmap string pyval) :=
  let min_age_days := cleaned_data !! "min_age_days" in
  let min_age_months := cleaned_data !! "min_age_months" in
  let min_age_years := cleaned_data !! "min_age_years" in
  let max_age_days := cleaned_data !! "max_age_days" in
  let max_age_months := cleaned_data !! "max_age_months" in
  let max_age_years := cleaned_data !! "max_age_years" in
  min_total ← age_total min_age_years min_age_months min_age_days;
  max_total ← age_total max_age_years max_age_months max_age_days;
  if fgt min_total max_total
  then Raise (ValidationError error_message)
  else Return cleaned_data.

End BaseStudyForm.

Section Json.
(** [json.loads] of the standard library is taken as given: it returns the
    parsed value or raises. *)
Variable JSON : Type.
Variable json_loads : string -> result JSON.

(** [try: json.loads(structure) except: raise forms.ValidationError(message)] *)
Definition loads_or_invalid (message structure : string) : result JSON :=
  match json_loads structure with
  | Return json_data => Return json_data
  | Raise _ => Raise (ValidationError message)
  end.
End Json.

Module StudyForm.
Definition error_message : string :=
  "Save failed due to invalid JSON! Please use valid JSON and save again. If you reload this page, all changes will be lost.".

Definition clean_structure {JSON : Type} (json_loads : string -> result JSON)
    (structure : string) : result JSON :=
  loads_or_invalid JSON json_loads error_message structure.
End StudyForm.

Module StudyBuildForm.
Definition error_message : string := "Invalid JSON".

Definition clean_structure {JSON : Type} (json_loads : string -> result JSON)
    (structure : string) : result JSON :=
  loads_or_invalid JSON json_loads error_message structure.
End StudyBuildForm.

(** ** Sample inputs used in the statements below *)

Import BreadcrumbNode.

Definition TextNode {T : Type} (id : nat) (s : string) : Node T :=
  Build_Node id (fun _ => s).

Definition quoted (s : string) : string := dquote +:+ s +:+ dquote.

Definition example_nodes : list (Node unit) :=
  [TextNode 0 "/a"; TextNode 1 "A"; TextNode 2 "/b"; TextNode 3 "B";
   TextNode 4 "Current"].

Definition example_output : string :=
  "<nav aria-label=" +:+ quoted "breadcrumb" +:+ " class=" +:+ quoted "my-2 breadcrumb" +:+ ">"
  +:+ "<ol class=" +:+ quoted "breadcrumb" +:+ ">"
  +:+ "<li class=" +:+ quoted "breadcrumb-item" +:+ ">"
  +:+ "<a href=" +:+ quoted "/a" +:+ ">A</a></li>"
  +:+ "<li class=" +:+ quoted "breadcrumb-item" +:+ ">"
  +:+ "<a href=" +:+ quoted "/b" +:+ ">B</a></li>"
  +:+ "<li class=" +:+ quoted "breadcrumb-item active" +:+ " aria-current=" +:+ quoted "page" +:+ ">Current</li>"
  +:+ "</ol></nav>".

Definition blank_example_nodes : list (Node unit) :=
  [TextNode 0 " "; TextNode 1 " "; TextNode 2 "/a"; TextNode 3 "A";
   TextNode 4 "Current"].

(** No blank node directly follows another blank node. *)
Fixpoint no_adjacent_blank {T : Type} (ctx : T) (l : list (Node T)) : Prop :=
  match l with
  | a :: (b :: _) as rest =>
      (renders_blank ctx a = true -> renders_blank ctx b = false)
      /\ no_adjacent_blank ctx rest
  | _ => True
  end.

(** ** Helper notions for the navigation-link statement *)

(** The target of a link: [reverse(url_name)], or [url_name] itself when
    [reverse_url] is off. *)
Definition resolved_url (reverse : string -> result string)
    (url_name : string) (reverse_url : bool) : result string :=
  if reverse_url then reverse url_name else Return url_name.

Definition given_classes (html_classes : option (list string)) : list string :=
  match html_classes with
  | None => default_html_classes
  | Some classes => classes
  end.


(** ** Helper notions for the analytics-tag statement *)



(** ** Helper notions for the query-transform statements *)

(** The four keys [query_transform] may override. *)
Definition override_keys : list string := ["state"; "page"; "match"; "sort"].

(** The value an override argument contributes: present and truthy. *)
Definition effective (kwargs : gmap string pyval) (key : string) : option pyval :=
  match kwargs !! key with
  | Some value => if truthy value then Some value else None
  | None => None
  end.

(** The existing parameter set after one application with [kwargs]. *)
Definition transformed (request : Request) (kwargs : gmap string pyval) : Request :=
  {| path := path request; GET := query_transform_updated request kwargs |}.

(** ** Sample inputs for the form and migration statements *)


(** ** Helper notions for the migration statements *)

Definition efp_old : string := "Ember Frame Player (default)".
Definition efp_new : string := "Lookit/Ember Frame Player (Default experiment builder)".
Definition external_old : string := "External".
Definition external_new : string :=
  "External Study (Choose this if you are posting a study link rather using an experiment builder)".

(** The number of rows of the catalog that carry a given display name. *)
Definition count_name (n : string) (table : list StudyType) : nat :=
  length (filter (fun row => name row = n) table).

(** A row with its display name changed from [from] to [to], any other row
    as it is. *)
Definition renamed (from to : string) (row : StudyType) : StudyType :=
  if decide (name row = from) then {| pk := pk row; name := to |} else row.

(** What the forward and the reverse renaming should do to one row. *)
Definition forward_row (row : StudyType) : StudyType :=
  renamed external_old external_new (renamed efp_old efp_new row).

Definition reverse_row (row : StudyType) : StudyType :=
  renamed external_new external_old (renamed efp_new efp_old row).

(** A catalog that, besides the two old names, already has a row carrying the
    new name of the frame player. *)
Definition crowded_catalog : list StudyType :=
  [ {| pk := 1; name := efp_old |};
    {| pk := 2; name := external_old |};
    {| pk := 3; name := efp_new |} ].

Definition standard_catalog : list StudyType :=
  [ {| pk := 1; name := efp_old |};
    {| pk := 2; name := external_old |} ].

(** ** Helper notions for the age-range statements *)

(** The submitted form data with the six age fields set to integers. *)
Definition age_data (min_years min_months min_days
                     max_years max_months max_days : Z) : gmap string pyval :=
  {[ "min_age_years" := PyInt min_years;
     "min_age_months" := PyInt min_months;
     "min_age_days" := PyInt min_days;
     "max_age_years" := PyInt max_years;
     "max_age_months" := PyInt max_months;
     "max_age_days" := PyInt max_days ]}.


(** [years + months/12 + days/365] as an exact fraction. *)
Definition exact_total (years months days : Z) : Q :=
  (inject_Z years + inject_Z months / 12 + inject_Z days / 365)%Q.


(** The value of a positive finite float, times [2^64]. *)
Definition scaled (m : positive) (e : Z) : Z := (Z.pos m * 2 ^ (e + 64))%Z.

(** [good E f v]: the float [f] is [+0] or a positive normalised float with
    exponent between [-64] and [E], and [v] is its value times [2^64]. *)
Inductive good (E : Z) : spec_float -> Z -> Prop :=
  | good_zero : good E (S754_zero false) 0%Z
  | good_finite (m : positive) (e : Z) :
      (2 ^ 52 <= Z.pos m < 2 ^ 53)%Z -> (-64 <= e <= E)%Z ->
      good E (S754_finite false m e) (scaled m e).

(** [4380 * (years + months/12 + days/365)], an integer. *)
Definition total_num (years months days : Z) : Z :=
  (4380 * years + 365 * months + 12 * days)%Z.


(** * More of the code *)

(** ** web/templatetags/web_extras.py, continued *)

(** [a == b] on the modelled values: [True == 1] and [False == 0] hold in
    Python, values of different kinds are otherwise unequal. *)
Definition py_eq (a b : pyval) : bool :=
  match a, b with
  | PyNone, PyNone => true
  | PyBool x, PyBool y => Bool.eqb x y
  | PyInt x, PyInt y => (x =? y)%Z
  | PyBool x, PyInt y | PyInt y, PyBool x => ((if x then 1 else 0) =? y)%Z
  | PyStr x, PyStr y => String.eqb x y
  | _, _ => false
  end.

Section NavNext.
Variable reverse : string -> result string.
Variable gettext : string -> string.





(** [nav_link] called with a list object for [html_classes]:
    [html_classes.extend] works on the caller's list, so besides the result
    the call yields the list as it leaves it. An exception from [reverse]
    comes before the list is touched. *)
Definition nav_link_in_place (request : Request) (url_name text : string)
    (html_classes : list string) (queryString : option string)
    (list_ reverse_url : bool) : result string * list string :=
  match nav_link_state reverse request url_name (Some html_classes)
          queryString reverse_url with
  | Return st =>
      (nav_link reverse gettext request url_name text (Some html_classes)
         queryString list_ reverse_url,
       nav_classes st)
  | Raise e => (Raise e, html_classes)
  end.

(** A tab of the study-list form as the tags read it: [tab.data], a
    dictionary. [d[key]] raises [KeyError] on a missing key. *)
Definition getitem (d : gmap string pyval) (key : string) : result pyval :=
  match d !! key with
  | Some v => Return v
  | None => Raise KeyError
  end.

(** [StudyListSearchForm.Tabs.<tab>.value[0]] for the three tabs; the form is
    not part of the modelled files. *)
Variable all_studies synchronous_studies asynchronous_studies : pyval.

Definition all_studies_text : string :=
  "Use the tabs above to see activities you can do right now, or scheduled activities you can sign up for."
    +:+ nl +:+ nl
    +:+ "Please note you'll need a laptop or desktop computer (not a mobile device) running Chrome or Firefox to participate, unless a specific study says otherwise.".

Definition synchronous_studies_text : string :=
  "You and your child can participate in these studies right now by choosing a study and then clicking "
    +:+ dquote +:+ "Participate." +:+ dquote
    +:+ " Please note you'll need a laptop or desktop computer (not a mobile device) running Chrome or Firefox to participate, unless a specific study says otherwise.".

Definition asynchronous_studies_text : string :=
  "You and your child can participate in these studies by scheduling a time to meet with a researcher (usually over video conferencing). Choose a study and then click "
    +:+ dquote +:+ "Participate" +:+ dquote
    +:+ " to sign up for a study session in the future.".

(** A function that falls off its end returns [None]: the result is an
    [option]. *)
Fixpoint studies_tab_text (tabs : list (gmap string pyval))
    : result (option string) :=
  match tabs with
  | [] => Return None
  | data :: rest =>
      selected ← getitem data "selected";
      if truthy selected then
        value ← getitem data "value";
        if py_eq value all_studies then
          Return (Some (gettext all_studies_text))
        else if py_eq value synchronous_studies then
          Return (Some (gettext synchronous_studies_text))
        else if py_eq value asynchronous_studies then
          Return (Some (gettext asynchronous_studies_text))
        else studies_tab_text rest
      else studies_tab_text rest
  end.

Fixpoint studies_tab_selected (value : list (gmap string pyval))
    : result (option pyval) :=
  match value with
  | [] => Return None
  | data :: rest =>
      selected ← getitem data "selected";
      if truthy selected then
        v ← getitem data "value";
        Return (Some v)
      else studies_tab_selected rest
  end.
End NavNext.

Module FormButtonsNode.
(** [render] reads [self.nodelist] and leaves it as it is. *)
Definition render {TemplateContext : Type} (context : TemplateContext)
    (nodelist : list (Node TemplateContext)) : string :=
  let rendered_buttons := map (fun n => node_render n context) nodelist in
  "<div class=" +:+ dquote +:+ "d-flex justify-content-end gap-1" +:+ dquote
    +:+ ">" +:+ join EmptyString rendered_buttons +:+ "</div>".
End FormButtonsNode.

(** ** studies/migrations/0056_populate_salt_values.py *)

Section GenSalt.
(** The columns of a study other than its primary key and its salt. *)
Variable Columns : Type.
(** A UUID is a 128-bit number. [uuid.uuid4()] draws a random one: the
    draws are taken from a given sequence, and the number of draws made so
    far is threaded through. *)
Variable uuid4 : nat -> Z.

Record Study : Type := {
  study_pk : Z;
  salt : option Z;
  columns : Columns
}.

(** [row.save()] of a row read from the table: an update by primary key. *)
Definition save_study (row : Study) (table : list Study) : list Study :=
  map (fun r => if (study_pk r =? study_pk row)%Z then row else r) table.

(** The loop [for row in MyModel.objects.all(): row.salt = uuid.uuid4();
    row.save()] over the rows fetched when the loop starts. *)
Fixpoint salt_rows (rows : list Study) (draws : nat) (table : list Study)
    : list Study * nat :=
  match rows with
  | [] => (table, draws)
  | row :: rest =>
      let row := {| study_pk := study_pk row;
                    salt := Some (uuid4 draws);
                    columns := columns row |} in
      salt_rows rest (S draws) (save_study row table)
  end.

(** [has_salt_field]: whether [MyModel._meta.get_field("salt")] finds the
    field; when it raises, the exception is swallowed and nothing is done. *)
Definition gen_salt (has_salt_field : bool) (draws : nat) (table : list Study)
    : list Study * nat :=
  if has_salt_field then salt_rows table draws table else (table, draws).
End GenSalt.

Arguments study_pk {Columns} s.
Arguments salt {Columns} s.
Arguments columns {Columns} s.
Arguments Build_Study {Columns} _ _ _.
Arguments save_study {Columns} row table.
Arguments salt_rows {Columns} uuid4 rows draws table.
Arguments gen_salt {Columns} uuid4 has_salt_field draws table.

(** ** project/settings/defaults.py *)

(** [text.split(sep)] for a one-character separator: the pieces between
    separators, empty pieces included. *)
Fixpoint split_char (sep : ascii) (s : string) : list string :=
  match s with
  | EmptyString => [EmptyString]
  | String c s' =>
      if Ascii.eqb c sep then EmptyString :: split_char sep s'
      else match split_char sep s' with
           | [] => [String c EmptyString]
           | piece :: pieces => String c piece :: pieces
           end
  end.

Section Settings.
(** [os.environ]: the settings are a function of it. *)
Variable environ : gmap string string.

(** [os.environ.get(key, default)] *)
Definition environ_get (key : string) (default : pyval) : pyval :=
  match environ !! key with
  | Some value => PyStr value
  | None => default
  end.

Definition DEBUG : bool := truthy (environ_get "DEBUG" (PyBool false)).

Definition ALLOWED_HOSTS : list string :=
  filter (fun h => String.eqb h EmptyString = false)
    (split_char " "%char (py_str (environ_get "ALLOWED_HOSTS" (PyStr EmptyString)))).

Definition base_installed_apps : list string :=
  [ "django.contrib.auth"; "django.contrib.contenttypes";
    "django.contrib.flatpages"; "django.contrib.sessions";
    "django.contrib.sites"; "django.contrib.messages";
    "django.contrib.staticfiles"; "django_filters";
    "django_extensions"; "guardian"; "localflavor"; "rest_framework";
    "bootstrap3"; "debug_toolbar"; "ace_overlay"; "corsheaders";
    "rest_framework.authtoken"; "rest_framework_json_api"; "storages";
    "osf_oauth2_adapter"; "api"; "web"; "accounts"; "studies"; "exp";
    "django.forms"; "django.contrib.admin";
    "allauth"; "allauth.account"; "allauth.socialaccount" ].

Definition INSTALLED_APPS : list string :=
  if negb DEBUG
  then base_installed_apps ++ ["raven.contrib.django.raven_compat"]
  else base_installed_apps.

(** [RAVEN_CONFIG] is bound only when [DEBUG] is off: its ['dsn'] and
    ['release'] entries, or nothing. *)
Definition RAVEN_CONFIG : option (pyval * pyval) :=
  if negb DEBUG
  then Some (environ_get "RAVEN_DSN" PyNone,
             environ_get "GIT_COMMIT" (PyStr "No version"))
  else None.

(** [if os.getenv('GOOGLE_APPLICATION_CREDENTIALS'):] *)
Definition use_cloud_storage : bool :=
  truthy (environ_get "GOOGLE_APPLICATION_CREDENTIALS" PyNone).

Definition STATIC_URL : pyval :=
  if use_cloud_storage
  then environ_get "STATIC_URL"
         (PyStr "https://storage.googleapis.com/io-osf-lookit-staging2/static/")
  else PyStr "/static/".

Definition MEDIA_URL : pyval :=
  if use_cloud_storage
  then environ_get "MEDIA_URL"
         (PyStr "https://storage.googleapis.com/io-osf-lookit-staging2/media/")
  else PyStr "/media/".

(** Bound in the cloud-storage branch only. *)
Definition STATICFILES_STORAGE : option string :=
  if use_cloud_storage then Some "project.storages.LookitStaticStorage" else None.

Definition GS_BUCKET_NAME : option pyval :=
  if use_cloud_storage
  then Some (environ_get "GS_BUCKET_NAME" (PyStr "io-osf-lookit-staging2"))
  else None.

Definition EMAIL_USE_TLS : pyval := environ_get "EMAIL_USE_TLS" (PyBool true).
End Settings.

(** ** Notions used to describe the breadcrumb loop *)

(** What the removal loop keeps: a blank node is dropped and the node after
    it is stepped over, hence kept whatever it renders. *)
Fixpoint survivors {T : Type} (ctx : T) (l : list (Node T)) : list (Node T) :=
  match l with
  | [] => []
  | x :: rest =>
      if renders_blank ctx x then
        match rest with
        | [] => []
        | y :: rest' => y :: survivors ctx rest'
        end
      else x :: survivors ctx rest
  end.

(** The node list a [BreadcrumbNode] is left with after one [render]. *)
Definition rerender {T : Type} (ctx : T) (nodelist : list (Node T))
    : list (Node T) :=
  snd (BreadcrumbNode.render ctx nodelist).

(** ** Notions used to describe the navigation tags *)

(** The two classes [nav_link] adds to an active link. *)
Definition active_marker : list string := ["active"; "btn-secondary"].

(** The text appended to the href: the query string when it is given and
    not empty. *)
Definition query_suffix (queryString : option string) : string :=
  match queryString with
  | Some q => q
  | None => EmptyString
  end.

(** The text of a known tab value, chosen as [studies_tab_text] chooses. *)
Definition tab_text (all_studies synchronous_studies asynchronous_studies : pyval)
    (value : pyval) : option string :=
  if py_eq value all_studies then Some all_studies_text
  else if py_eq value synchronous_studies then Some synchronous_studies_text
  else if py_eq value asynchronous_studies then Some asynchronous_studies_text
  else None.

(** The text between the opening and the closing tag of a form-buttons
    block. *)
Definition buttons_inner {T : Type} (ctx : T) (l : list (Node T)) : string :=
  join EmptyString (map (fun n => node_render n ctx) l).

(** ** Notions used to describe the query-string transform *)

(** The characters a query string is made of: letters, digits, [_.-~], the
    [+] that stands for a space, the [%] of an escape, and the separators
    [=] and [&]. *)
Definition url_safe (c : ascii) : bool :=
  let n := nat_of_ascii c in
  (Nat.leb 48 n && Nat.leb n 57) || (Nat.leb 65 n && Nat.leb n 90)
  || (Nat.leb 97 n && Nat.leb n 122)
  || existsb (Nat.eqb n) [95; 46; 45; 126; 43; 37; 61; 38]%nat.

(** The override keys that [query_transform] has to add: those with a
    present and truthy argument that the parameter set does not have. *)
Definition new_keys (kwargs : gmap string pyval) (d : QueryDict) : list string :=
  filter (fun key => is_Some (effective kwargs key) /\ key ∉ keys d)
    override_keys.

(** ** Notions used to describe the age-range check *)

Definition age_fields : list string :=
  [ "min_age_years"; "min_age_months"; "min_age_days";
    "max_age_years"; "max_age_months"; "max_age_days" ].

(** A field that [cleaned_data.get] reads as [None]: left out of the data,
    as a field that failed its own validation is, or stored as [None]. *)
Definition is_missing (v : option pyval) : bool :=
  match v with
  | None | Some PyNone => true
  | _ => false
  end.

(** A field that holds an integer from [0] to [2^31 - 1]. *)
Definition is_small_int (v : option pyval) : bool :=
  match v with
  | Some (PyInt n) => ((0 <=? n) && (n <? 2 ^ 31))%Z
  | _ => false
  end.

(** Form data in which the maximum age in days did not pass its own
    validation and is left out. *)
Definition age_data_without_max_days : gmap string pyval :=
  delete "max_age_days" (age_data 0 6 0 3 0 0).

(** ** Notions used to describe the study-type migration *)

(** What a run of the migration comes to, by the number of rows that carry
    the frame player's source name and the external study's source name:
    [table'] stands for the renamed catalog. *)
Definition rename_outcome (efp_rows external_rows : nat)
    (table' : list StudyType) : result (list StudyType) :=
  match efp_rows, external_rows with
  | 0, _ => Raise DoesNotExist
  | 1, 0 => Raise DoesNotExist
  | 1, 1 => Return table'
  | _, _ => Raise MultipleObjectsReturned
  end%nat.

(** A row after a run, against the row before it: the same primary key, and
    either the same row or a name that is a target name of the run. *)
Definition row_after (to_key : string) (row row' : StudyType) : Prop :=
  pk row' = pk row
  /\ (row' = row
      \/ names_lookup "efp" to_key = Some (name row')
      \/ names_lookup "external" to_key = Some (name row')).

(** ** Notions used to describe the salt migration *)

(** A row with its salt set to a given draw. *)
Definition with_salt {Columns : Type} (draw : Z) (row : Study Columns)
    : Study Columns :=
  {| study_pk := study_pk row; salt := Some draw; columns := columns row |}.

(** The rows with the draws from [draws] on as their salts, one draw a row. *)
Fixpoint salted {Columns : Type} (uuid4 : nat -> Z) (draws : nat)
    (rows : list (Study Columns)) : list (Study Columns) :=
  match rows with
  | [] => []
  | row :: rest => with_salt (uuid4 draws) row :: salted uuid4 (S draws) rest
  end.

(** Three studies without a salt, and a sequence of draws. *)
Definition unsalted_studies : list (Study string) :=
  [ {| study_pk := 7; salt := None; columns := "first" |};
    {| study_pk := 3; salt := None; columns := "second" |};
    {| study_pk := 9; salt := Some 5%Z; columns := "third" |} ].

Definition sample_draws (n : nat) : Z := (1000 + Z.of_nat n)%Z.

(** ** Notions used to describe the settings *)

(** A text without the separator character in it. *)
Definition sep_free (sep : ascii) (s : string) : bool :=
  string_forallb (fun c => negb (Ascii.eqb c sep)) s.

(** A host name as [ALLOWED_HOSTS] can hold it: not empty, no space in it. *)
Definition host_name (h : string) : bool :=
  negb (String.eqb h EmptyString)
  && string_forallb (fun c => negb (Ascii.eqb c " "%char)) h.

(** * Properties *)

(** ** The breadcrumb block *)

Section BreadcrumbFacts.
Import BreadcrumbNode.
Context {T : Type} (ctx : T).

Lemma fuel_enough (fuel1 fuel2 i : nat) (l : list (Node T)) :
  length l - i <= fuel1 -> length l - i <= fuel2 ->
  remove_empty_loop ctx fuel1 i l = remove_empty_loop ctx fuel2 i l.
Proof.
  revert fuel2 i l.
  induction fuel1 as [|f1 IH]; intros fuel2 i l H1 H2.
  - destruct fuel2 as [|f2]; [reflexivity|]. simpl.
    rewrite lookup_ge_None_2 by lia. reflexivity.
  - destruct fuel2 as [|f2]; simpl.
    + rewrite lookup_ge_None_2 by lia. reflexivity.
    + destruct (l !! i) as [node|] eqn:E; [|reflexivity].
      apply lookup_lt_Some in E.
      assert (Hlen : length (list_remove node l) <= length l).
      { clear. induction l as [|n r IHr]; simpl; [lia|].
        destruct (same_node n node); simpl; lia. }
      destruct (renders_blank ctx node); apply IH; lia.
Qed.

Lemma loop_keeps_nonblank (l : list (Node T)) :
  Forall (fun n => renders_blank ctx n = false) l ->
  forall fuel i, remove_empty_loop ctx fuel i l = l.
Proof.
  intros Hl fuel. induction fuel as [|f IH]; intros i; simpl; [reflexivity|].
  destruct (l !! i) as [node|] eqn:E; [|reflexivity].
  rewrite Forall_forall in Hl.
  rewrite (Hl node) by (eapply list_elem_of_lookup_2; exact E).
  apply IH.
Qed.

Lemma render_nonempty (l : list (Node T)) :
  l <> [] ->
  render ctx l =
    match list_pop (remove_empty_nodes ctx l) with
    | Raise e => (Raise e, remove_empty_nodes ctx l)
    | Return (last_node, rest) =>
        (Return (join EmptyString
                   (breadcrumb_open
                      ++ concat (map (breadcrumb_item ctx) (pairwise rest))
                      ++ [breadcrumb_current ctx last_node; "</ol></nav>"])),
         rest)
    end.
Proof. destruct l; [congruence | reflexivity]. Qed.

Lemma list_pop_snoc (front : list (Node T)) (x : Node T) :
  list_pop (front ++ [x]) = Return (x, front).
Proof.
  unfold list_pop. rewrite last_snoc, removelast_last. reflexivity.
Qed.

Lemma pairwise_drop_odd {A : Type} (l : list A) (x : A) :
  Nat.Even (length l) -> pairwise (l ++ [x]) = pairwise l.
Proof.
  revert x. induction l as [l IH] using (induction_ltof1 _ (@length A)).
  unfold ltof in IH. intros x Hev.
  destruct l as [|a [|b rest]]; simpl in *.
  - reflexivity.
  - destruct Hev as [k Hk]. lia.
  - f_equal. apply IH; [simpl; lia|].
    destruct Hev as [k Hk]. exists (k - 1). lia.
Qed.

(** In a list of distinct nodes, removing a node takes out that very node. *)
Lemma list_remove_middle (done rest : list (Node T)) (x : Node T) :
  NoDup (map node_id (done ++ x :: rest)) ->
  list_remove x (done ++ x :: rest) = done ++ rest.
Proof.
  induction done as [|d done IH]; simpl; intros Hnd.
  - unfold same_node. rewrite Nat.eqb_refl. reflexivity.
  - apply NoDup_cons in Hnd as [Hd Hnd].
    unfold same_node at 1. destruct (Nat.eqb (node_id d) (node_id x)) eqn:E.
    + exfalso. apply Hd. apply Nat.eqb_eq in E. rewrite E.
      rewrite map_app. apply elem_of_app. right. left.
    + rewrite IH by exact Hnd. reflexivity.
Qed.

(** When the iterator stands just past the nodes already kept, the loop keeps
    the non-blank nodes of the rest, provided no two blank nodes are adjacent:
    the node stepped over after a removal is then a non-blank one. *)
Lemma loop_filters_rest (fuel : nat) :
  forall done rest : list (Node T),
    length rest <= fuel ->
    NoDup (map node_id (done ++ rest)) ->
    no_adjacent_blank ctx rest ->
    remove_empty_loop ctx fuel (length done) (done ++ rest)
      = done ++ filter (fun n => renders_blank ctx n = false) rest.
Proof.
  induction fuel as [|fuel IH]; intros done rest Hlen Hnd Hadj.
  - destruct rest; [reflexivity | simpl in Hlen; lia].
  - destruct rest as [|x rest]; simpl remove_empty_loop.
    + rewrite lookup_ge_None_2 by (rewrite app_nil_r; lia). reflexivity.
    + rewrite list_lookup_middle by reflexivity.
      rewrite filter_cons.
      destruct (renders_blank ctx x) eqn:Ex.
      * rewrite decide_False by discriminate.
        rewrite list_remove_middle by exact Hnd.
        assert (Hnd' : NoDup (map node_id (done ++ rest))).
        { rewrite map_app in *. simpl in Hnd.
          apply NoDup_app in Hnd as (H1 & H2 & H3).
          apply NoDup_cons in H3 as [_ H3].
          apply NoDup_app. split; [exact H1|]. split; [|exact H3].
          intros k Hk Hk'. apply (H2 k Hk). right. exact Hk'. }
        destruct rest as [|y rest].
        { destruct fuel; simpl.
          - reflexivity.
          - rewrite lookup_ge_None_2 by (rewrite app_nil_r; lia). reflexivity. }
        destruct Hadj as [Hxy Hadj]. specialize (Hxy Ex).
        rewrite filter_cons, decide_True by exact Hxy.
        replace (S (length done)) with (length (done ++ [y]))
          by (rewrite length_app; simpl; lia).
        replace (done ++ y :: rest) with ((done ++ [y]) ++ rest)
          by (rewrite <- app_assoc; reflexivity).
        rewrite IH.
        -- rewrite <- app_assoc. reflexivity.
        -- simpl in Hlen. lia.
        -- rewrite <- app_assoc. exact Hnd'.
        -- destruct rest; [exact I | apply Hadj].
      * rewrite decide_True by reflexivity.
        replace (S (length done)) with (length (done ++ [x]))
          by (rewrite length_app; simpl; lia).
        replace (done ++ x :: rest) with ((done ++ [x]) ++ rest)
          by (rewrite <- app_assoc; reflexivity).
        rewrite IH.
        -- rewrite <- app_assoc. reflexivity.
        -- simpl in Hlen. lia.
        -- rewrite <- app_assoc. exact Hnd.
        -- destruct rest; [exact I | apply Hadj].
Qed.

(** The removal loop does discard every blank node when the nodes are
    distinct objects and no two blank nodes are adjacent. *)
Lemma remove_empty_nodes_filter (l : list (Node T)) :
  NoDup (map node_id l) -> no_adjacent_blank ctx l ->
  remove_empty_nodes ctx l = filter (fun n => renders_blank ctx n = false) l.
Proof.
  intros Hnd Hadj. unfold remove_empty_nodes.
  apply (loop_filters_rest (length l) [] l); [lia | exact Hnd | exact Hadj].
Qed.
End BreadcrumbFacts.


Lemma pairwise_lookup {A : Type} (l : list A) (i : nat) :
  pairwise l !! i =
    match l !! (2 * i), l !! (2 * i + 1) with
    | Some a, Some b => Some (a, b)
    | _, _ => None
    end.
Proof.
  revert l. induction i as [|i IH]; intros l.
  - destruct l as [|a [|b rest]]; reflexivity.
  - destruct l as [|a [|b rest]]; [reflexivity..|].
    simpl pairwise. rewrite lookup_cons_ne_0 by lia. simpl Nat.pred.
    rewrite IH.
    replace (2 * S i) with (S (S (2 * i))) by lia.
    replace (S (S (2 * i)) + 1) with (S (S (2 * i + 1))) by lia.
    reflexivity.
Qed.

(** C5: when every child node renders non-blank, [render] takes the last
    node as the current item, an unlinked list item marked
    [aria-current="page"], and pairs the nodes before it two at a time as
    (href, label) links: pair [i] is made of nodes [2i] and [2i+1], so with an
    odd number of preceding nodes the last of them appears in no pair. The
    five nodes "/a", "A", "/b", "B", "Current" give two links and the current
    item. *)
Theorem breadcrumb_render_nonblank {T : Type} (ctx : T)
    (front : list (Node T)) (last_node : Node T) :
  Forall (fun n => renders_blank ctx n = false) (front ++ [last_node]) ->
  render ctx (front ++ [last_node]) =
    (Return (join EmptyString
               (breadcrumb_open
                  ++ concat (map (breadcrumb_item ctx) (pairwise front))
                  ++ [breadcrumb_current ctx last_node; "</ol></nav>"])),
     front)
  /\ (forall i, pairwise front !! i =
        match front !! (2 * i), front !! (2 * i + 1) with
        | Some href, Some label => Some (href, label)
        | _, _ => None
        end)
  /\ (forall rest x, front = rest ++ [x] -> Nat.Even (length rest) ->
        pairwise front = pairwise rest)
  /\ fst (render tt example_nodes) = Return example_output.
Proof.
  intros Hnb. split; [|split; [|split]].
  - rewrite render_nonempty by (destruct front; discriminate).
    unfold remove_empty_nodes.
    rewrite loop_keeps_nonblank by exact Hnb.
    rewrite list_pop_snoc. reflexivity.
  - intros i. apply pairwise_lookup.
  - intros rest x -> Hev. apply pairwise_drop_odd, Hev.
  - vm_compute. reflexivity.
Qed.

Lemma breadcrumb_render_nonblank_witness :
  Forall (fun n => renders_blank tt n = false) example_nodes
  /\ fst (render tt example_nodes) = Return example_output.
Proof.
  split.
  - repeat constructor.
  - apply (breadcrumb_render_nonblank tt
             [TextNode 0 "/a"; TextNode 1 "A"; TextNode 2 "/b"; TextNode 3 "B"]
             (TextNode 4 "Current")).
    repeat constructor.
Defined.

(** C10: a node list made of one node that renders blank is not empty, yet
    [render] returns no string on it: the loop removes the node and [pop]
    raises [IndexError] on the list left empty. *)
Theorem breadcrumb_single_blank_raises {T : Type} (ctx : T) (node : Node T) :
  renders_blank ctx node = true ->
  [node] <> [] /\ render ctx [node] = (Raise IndexError, []).
Proof.
  intros Hb. split; [discriminate|].
  unfold render, remove_empty_nodes. simpl.
  rewrite Hb. simpl. unfold same_node. rewrite Nat.eqb_refl. reflexivity.
Qed.

Lemma breadcrumb_single_blank_raises_witness :
  renders_blank tt (TextNode 0 (" " +:+ nl)) = true
  /\ render tt [TextNode 0 (" " +:+ nl)] = (Raise IndexError, []).
Proof.
  split; [reflexivity|].
  apply (breadcrumb_single_blank_raises tt (TextNode 0 (" " +:+ nl))).
  reflexivity.
Defined.

(** C4, at two blank nodes in a row: the loop removes the first and steps
    over the second, which stays in the list and is paired as an href; the
    output differs from the one for the list with both blank nodes removed
    up front. *)
Theorem breadcrumb_adjacent_blank_survives :
  remove_empty_nodes tt blank_example_nodes
    = [TextNode 1 " "; TextNode 2 "/a"; TextNode 3 "A"; TextNode 4 "Current"]
  /\ filter (fun n => renders_blank tt n = false) blank_example_nodes
    = [TextNode 2 "/a"; TextNode 3 "A"; TextNode 4 "Current"]
  /\ fst (render tt blank_example_nodes)
     <> fst (render tt (filter (fun n => renders_blank tt n = false) blank_example_nodes)).
Proof.
  split; [reflexivity|]. split; [reflexivity|].
  vm_compute. discriminate.
Qed.

(** Under the same conditions, and with a non-blank node present, [render]
    returns what it returns on the list with the blank nodes removed up
    front. *)
Lemma render_filter_agree {T : Type} (ctx : T) (l : list (Node T)) :
  NoDup (map node_id l) -> no_adjacent_blank ctx l ->
  filter (fun n => renders_blank ctx n = false) l <> [] ->
  fst (render ctx l)
    = fst (render ctx (filter (fun n => renders_blank ctx n = false) l)).
Proof.
  intros Hnd Hadj Hne.
  assert (Hl : l <> []) by (intros ->; apply Hne; reflexivity).
  rewrite !render_nonempty by assumption.
  rewrite remove_empty_nodes_filter by assumption.
  unfold remove_empty_nodes at 1.
  rewrite loop_keeps_nonblank.
  - destruct (list_pop _) as [[last_node rest]|e]; reflexivity.
  - apply Forall_forall. intros n Hn.
    apply list_elem_of_filter in Hn as [Hn _]. exact Hn.
Qed.

(** ** Navigation links *)

Lemma active_nav_iff (request : Request) (url : string) :
  active_nav request url = true <-> path request = url.
Proof. unfold active_nav. apply String.eqb_eq. Qed.




(** ** The analytics tag *)










(** ** The query-string transform *)

Section QueryDictFacts.
Implicit Types (d : QueryDict) (key k : string) (v : pyval).

Lemma getlist_setitem_eq key v d : getlist key (setitem key v d) = Some [v].
Proof.
  induction d as [|[k vs] rest IH]; simpl.
  - rewrite String.eqb_refl. reflexivity.
  - destruct (String.eqb k key) eqn:E; simpl; rewrite E; [reflexivity | exact IH].
Qed.

Lemma getlist_setitem_ne key k v d :
  k <> key -> getlist k (setitem key v d) = getlist k d.
Proof.
  intros Hne. induction d as [|[k' vs] rest IH]; simpl.
  - apply String.eqb_neq in Hne. rewrite String.eqb_sym, Hne. reflexivity.
  - destruct (String.eqb k' key) eqn:E; simpl.
    + apply String.eqb_eq in E. subst k'.
      apply String.eqb_neq in Hne. rewrite String.eqb_sym, Hne. reflexivity.
    + destruct (String.eqb k' k); [reflexivity | exact IH].
Qed.

Lemma setitem_same key v d : getlist key d = Some [v] -> setitem key v d = d.
Proof.
  induction d as [|[k vs] rest IH]; simpl; [discriminate|].
  destruct (String.eqb k key); intros H.
  - congruence.
  - rewrite IH by exact H. reflexivity.
Qed.

Lemma keys_setitem key v d : exists new, keys (setitem key v d) = keys d ++ new.
Proof.
  induction d as [|[k vs] rest [new IH]]; simpl.
  - exists [key]. reflexivity.
  - destruct (String.eqb k key); simpl.
    + exists []. rewrite app_nil_r. reflexivity.
    + exists new. unfold keys in *. simpl. rewrite IH. reflexivity.
Qed.

Variable kwargs : gmap string pyval.

Lemma override_effective key d :
  override kwargs key d =
    match effective kwargs key with
    | Some v => setitem key v d
    | None => d
    end.
Proof.
  unfold override, effective.
  destruct (kwargs !! key) as [v|]; [|reflexivity].
  destruct (truthy v); reflexivity.
Qed.

Lemma getlist_override_eq key d :
  getlist key (override kwargs key d) =
    match effective kwargs key with
    | Some v => Some [v]
    | None => getlist key d
    end.
Proof.
  rewrite override_effective.
  destruct (effective kwargs key); [apply getlist_setitem_eq | reflexivity].
Qed.

Lemma getlist_override_ne key k d :
  k <> key -> getlist k (override kwargs key d) = getlist k d.
Proof.
  intros Hne. rewrite override_effective.
  destruct (effective kwargs key); [apply getlist_setitem_ne, Hne | reflexivity].
Qed.

(** An override is settled in [d] when applying it changes nothing. *)
Lemma override_settled key d :
  getlist key d = match effective kwargs key with
                  | Some v => Some [v]
                  | None => getlist key d
                  end ->
  override kwargs key d = d.
Proof.
  rewrite override_effective.
  destruct (effective kwargs key); [apply setitem_same | reflexivity].
Qed.

Lemma keys_override key d : exists new, keys (override kwargs key d) = keys d ++ new.
Proof.
  rewrite override_effective. destruct (effective kwargs key).
  - apply keys_setitem.
  - exists []. rewrite app_nil_r. reflexivity.
Qed.

(** What [updated] holds for any key once the four overrides are done. *)
Lemma getlist_updated (request : Request) key :
  getlist key (query_transform_updated request kwargs) =
    if bool_decide (key ∈ override_keys)
    then match effective kwargs key with
         | Some v => Some [v]
         | None => getlist key (GET request)
         end
    else getlist key (GET request).
Proof.
  unfold query_transform_updated, override_keys.
  destruct (decide (key = "sort")) as [->|Hsort].
  { rewrite getlist_override_eq.
    rewrite !getlist_override_ne by discriminate. reflexivity. }
  rewrite getlist_override_ne by exact Hsort.
  destruct (decide (key = "match")) as [->|Hmatch].
  { rewrite getlist_override_eq.
    rewrite !getlist_override_ne by discriminate. reflexivity. }
  rewrite getlist_override_ne by exact Hmatch.
  destruct (decide (key = "page")) as [->|Hpage].
  { rewrite getlist_override_eq.
    rewrite !getlist_override_ne by discriminate. reflexivity. }
  rewrite getlist_override_ne by exact Hpage.
  destruct (decide (key = "state")) as [->|Hstate].
  { rewrite getlist_override_eq. reflexivity. }
  rewrite getlist_override_ne by exact Hstate.
  rewrite bool_decide_eq_false_2; [reflexivity|].
  rewrite !elem_of_cons, elem_of_nil. tauto.
Qed.

Lemma updated_idempotent (request : Request) :
  query_transform_updated (transformed request kwargs) kwargs
    = query_transform_updated request kwargs.
Proof.
  unfold transformed.
  set (u := query_transform_updated request kwargs).
  assert (Hset : forall key, key ∈ override_keys ->
            getlist key u = match effective kwargs key with
                            | Some v => Some [v]
                            | None => getlist key u
                            end).
  { intros key Hin. subst u. rewrite !getlist_updated.
    rewrite bool_decide_eq_true_2 by exact Hin.
    destruct (effective kwargs key); reflexivity. }
  unfold query_transform_updated at 1. cbn [GET].
  rewrite (override_settled "state") by (apply Hset; set_solver).
  rewrite (override_settled "page") by (apply Hset; set_solver).
  rewrite (override_settled "match") by (apply Hset; set_solver).
  rewrite (override_settled "sort") by (apply Hset; set_solver).
  reflexivity.
Qed.

Lemma keys_updated (request : Request) :
  exists new,
    keys (query_transform_updated request kwargs) = keys (GET request) ++ new.
Proof.
  unfold query_transform_updated.
  destruct (keys_override "state" (GET request)) as [n1 H1].
  destruct (keys_override "page" (override kwargs "state" (GET request))) as [n2 H2].
  destruct (keys_override "match"
              (override kwargs "page" (override kwargs "state" (GET request))))
    as [n3 H3].
  destruct (keys_override "sort"
              (override kwargs "match"
                 (override kwargs "page" (override kwargs "state" (GET request)))))
    as [n4 H4].
  exists (n1 ++ n2 ++ n3 ++ n4).
  rewrite H4, H3, H2, H1. rewrite <- !app_assoc. reflexivity.
Qed.
End QueryDictFacts.

(** C2: applying [query_transform] with the same overrides to the parameter
    set produced by a first application gives the same encoded string as
    the first application. *)
Theorem query_transform_idempotent (request : Request)
    (kwargs : gmap string pyval) :
  query_transform (transformed request kwargs) kwargs
    = query_transform request kwargs.
Proof.
  unfold query_transform. rewrite updated_idempotent. reflexivity.
Qed.

(** C3: in the parameter set that [query_transform] encodes, an override
    that is present and truthy is the single value of its key; an override
    that is absent or falsy leaves the values of its key as they were; every
    other key keeps its values; and the keys of the input all remain, in
    their order, new keys coming after them. *)
Theorem query_transform_frame (request : Request)
    (kwargs : gmap string pyval) :
  let updated := query_transform_updated request kwargs in
  query_transform request kwargs = urlencode updated
  /\ (forall key value, key ∈ override_keys ->
        kwargs !! key = Some value -> truthy value = true ->
        getlist key updated = Some [value])
  /\ (forall key, key ∈ override_keys ->
        (kwargs !! key = None
         \/ exists value, kwargs !! key = Some value /\ truthy value = false) ->
        getlist key updated = getlist key (GET request))
  /\ (forall key, key ∉ override_keys ->
        getlist key updated = getlist key (GET request))
  /\ (exists new, keys updated = keys (GET request) ++ new)
  /\ (forall key, key ∈ keys (GET request) -> key ∈ keys updated).
Proof.
  intros updated. subst updated.
  split; [reflexivity|]. split; [|split; [|split; [|split]]].
  - intros key value Hin Hk Ht. rewrite getlist_updated.
    rewrite bool_decide_eq_true_2 by exact Hin.
    unfold effective. rewrite Hk, Ht. reflexivity.
  - intros key Hin Hk. rewrite getlist_updated.
    rewrite bool_decide_eq_true_2 by exact Hin.
    unfold effective. destruct Hk as [-> | (value & -> & ->)]; reflexivity.
  - intros key Hnin. rewrite getlist_updated.
    rewrite bool_decide_eq_false_2 by exact Hnin. reflexivity.
  - apply keys_updated.
  - intros key Hin. destruct (keys_updated kwargs request) as [new ->].
    apply elem_of_app. left. exact Hin.
Qed.

(** ** JSON validation of the structure field *)



(** ** The study-type rename migration *)

Section CatalogFacts.
Implicit Types (table : list StudyType) (row r : StudyType) (n : string).

Lemma pk_renamed from to r : pk (renamed from to r) = pk r.
Proof. unfold renamed. destruct (decide _); reflexivity. Qed.

Lemma pks_renamed from to table :
  map pk (map (renamed from to) table) = map pk table.
Proof.
  rewrite map_map. apply map_ext. intros r. apply pk_renamed.
Qed.

Lemma same_pk_same_row table r row :
  NoDup (map pk table) -> r ∈ table -> row ∈ table -> pk r = pk row -> r = row.
Proof.
  induction table as [|x rest IH]; intros Hnd Hr Hrow Hpk.
  - inversion Hr.
  - simpl in Hnd. apply NoDup_cons in Hnd as [Hx Hnd].
    apply elem_of_cons in Hr as [->|Hr]; apply elem_of_cons in Hrow as [->|Hrow].
    + reflexivity.
    + exfalso. apply Hx. rewrite Hpk. apply list_elem_of_fmap_2, Hrow.
    + exfalso. apply Hx. rewrite <- Hpk. apply list_elem_of_fmap_2, Hr.
    + apply IH; assumption.
Qed.

Lemma count_name_one n table :
  count_name n table = 1 ->
  exists row, filter (fun r => name r = n) table = [row]
              /\ row ∈ table /\ name row = n
              /\ forall r, r ∈ table -> name r = n -> r = row.
Proof.
  unfold count_name. intros Hlen.
  destruct (filter (fun r => name r = n) table) as [|row [|]] eqn:E;
    try discriminate.
  exists row. split; [reflexivity|].
  assert (Hin : row ∈ filter (fun r => name r = n) table).
  { rewrite E. left. }
  apply list_elem_of_filter in Hin as [Hn Hin].
  repeat split; try assumption.
  intros r Hr Hrn.
  assert (Hr' : r ∈ filter (fun r => name r = n) table).
  { apply list_elem_of_filter. split; assumption. }
  rewrite E in Hr'. apply list_elem_of_singleton in Hr'. exact Hr'.
Qed.

Lemma count_name_zero n table r :
  count_name n table = 0 -> r ∈ table -> name r <> n.
Proof.
  unfold count_name. intros Hlen Hr Hn.
  assert (Hr' : r ∈ filter (fun r => name r = n) table).
  { apply list_elem_of_filter. split; assumption. }
  destruct (filter _ table); [inversion Hr' | discriminate].
Qed.

(** Looking a name up and saving the row under its new name renames the one
    row that carried the name. *)
Lemma get_and_save from to table :
  NoDup (map pk table) -> count_name from table = 1 ->
  (row ← objects_get from table;
   Return (save {| pk := pk row; name := to |} table))
    = Return (map (renamed from to) table).
Proof.
  intros Hnd Hone.
  destruct (count_name_one _ _ Hone) as (row & Hf & Hin & Hn & Huniq).
  unfold objects_get. rewrite Hf. cbn [mbind result_bind].
  f_equal. unfold save. apply map_ext_in. intros r Hr.
  apply list_elem_of_In in Hr. cbn [pk]. unfold renamed.
  destruct (pk r =? pk row)%Z eqn:E.
  - apply Z.eqb_eq in E.
    assert (r = row) by (eapply same_pk_same_row; eassumption). subst r.
    rewrite decide_True by exact Hn. reflexivity.
  - rewrite decide_False; [reflexivity|].
    intros Hrn. rewrite (Huniq r Hr Hrn) in E.
    rewrite Z.eqb_refl in E. discriminate.
Qed.

Lemma rename_entry_renames entry from_key to_key from to table :
  names_lookup entry from_key = Some from ->
  names_lookup entry to_key = Some to ->
  NoDup (map pk table) -> count_name from table = 1 ->
  rename_entry entry from_key to_key table
    = Return (map (renamed from to) table).
Proof.
  intros Hf Ht Hnd Hone. unfold rename_entry. rewrite Hf, Ht.
  apply get_and_save; assumption.
Qed.

Lemma count_name_cons n r table :
  count_name n (r :: table) =
    (if decide (name r = n) then 1 else 0) + count_name n table.
Proof.
  unfold count_name. rewrite filter_cons.
  destruct (decide (name r = n)); reflexivity.
Qed.

Lemma name_renamed from to r :
  name (renamed from to r) = if decide (name r = from) then to else name r.
Proof. unfold renamed. destruct (decide _); reflexivity. Qed.

(** Renaming [from] to [to] moves the rows named [from] to the name [to]
    and leaves the count of every other name alone. *)
Lemma count_name_renamed from to n table :
  from <> to ->
  count_name n (map (renamed from to) table) =
    if decide (n = to) then count_name from table + count_name to table
    else if decide (n = from) then 0
    else count_name n table.
Proof.
  intros Hft. induction table as [|r rest IH].
  - repeat case_decide; reflexivity.
  - cbn [map]. rewrite !count_name_cons, name_renamed, IH.
    repeat case_decide; subst; try congruence; lia.
Qed.

(** One run of [study_type_names]: two look-ups and saves in a row. *)
Lemma two_renames entry1 entry2 from_key to_key f1 t1 f2 t2 table :
  names_lookup entry1 from_key = Some f1 ->
  names_lookup entry1 to_key = Some t1 ->
  names_lookup entry2 from_key = Some f2 ->
  names_lookup entry2 to_key = Some t2 ->
  f1 <> t1 -> f2 <> f1 -> f2 <> t1 ->
  NoDup (map pk table) ->
  count_name f1 table = 1 -> count_name f2 table = 1 ->
  (table' ← rename_entry entry1 from_key to_key table;
   rename_entry entry2 from_key to_key table')
    = Return (map (renamed f2 t2) (map (renamed f1 t1) table)).
Proof.
  intros H1f H1t H2f H2t Hft H21 H2t1 Hnd Hc1 Hc2.
  rewrite (rename_entry_renames entry1 from_key to_key f1 t1) by assumption.
  cbn [mbind result_bind].
  apply rename_entry_renames; try assumption.
  - rewrite pks_renamed. exact Hnd.
  - rewrite count_name_renamed by exact Hft.
    rewrite decide_False by exact H2t1.
    rewrite decide_False by exact H21. exact Hc2.
Qed.
End CatalogFacts.

Lemma renamed_back (f1 t1 f2 t2 : string) (r : StudyType) :
  f1 <> f2 -> f1 <> t2 -> t1 <> f2 -> t1 <> t2 ->
  name r <> t1 -> name r <> t2 ->
  renamed t2 f2 (renamed t1 f1 (renamed f2 t2 (renamed f1 t1 r))) = r.
Proof.
  intros. destruct r as [k n]. unfold renamed. cbn in *.
  repeat (case_decide; cbn in *); subst; congruence.
Qed.

(** A run of [study_type_names] and the run with the keys swapped, on a
    catalog where each source name is carried by one row and no row carries a
    target name. *)
Lemma study_type_names_there_and_back
    (from_key to_key f1 t1 f2 t2 : string) (table : list StudyType) :
  names_lookup "efp" from_key = Some f1 ->
  names_lookup "efp" to_key = Some t1 ->
  names_lookup "external" from_key = Some f2 ->
  names_lookup "external" to_key = Some t2 ->
  f1 <> t1 -> f1 <> f2 -> f1 <> t2 -> t1 <> f2 -> t1 <> t2 -> f2 <> t2 ->
  NoDup (map pk table) ->
  count_name f1 table = 1 -> count_name f2 table = 1 ->
  count_name t1 table = 0 -> count_name t2 table = 0 ->
  study_type_names from_key to_key table
    = Return (map (renamed f2 t2) (map (renamed f1 t1) table))
  /\ study_type_names to_key from_key
       (map (renamed f2 t2) (map (renamed f1 t1) table))
     = Return table.
Proof.
  intros L1f L1t L2f L2t D1 D2 D3 D4 D5 D6 Hnd C1 C2 C3 C4.
  unfold study_type_names. split.
  - apply (two_renames "efp" "external" from_key to_key f1 t1 f2 t2);
      try assumption; congruence.
  - rewrite (two_renames "efp" "external" to_key from_key t1 f1 t2 f2);
      try assumption; try congruence.
    + f_equal. rewrite !map_map.
      rewrite <- (map_id table) at 2. apply map_ext_in. intros r Hr.
      apply list_elem_of_In in Hr.
      apply renamed_back; try assumption; try congruence.
      * eapply count_name_zero; eassumption.
      * eapply count_name_zero; eassumption.
    + rewrite !pks_renamed. exact Hnd.
    + rewrite !count_name_renamed by assumption.
      repeat case_decide; subst; try congruence; lia.
    + rewrite !count_name_renamed by assumption.
      repeat case_decide; subst; try congruence; lia.
Qed.

(** C8, as the code has it: on a catalog with distinct primary keys in which
    one row is named "Ember Frame Player (default)", one row is named
    "External" and no row carries either new name, the forward rename
    succeeds, renames exactly those two rows and leaves every other row as it
    is, and the reverse rename then restores the catalog; symmetrically from
    the new names. *)
Theorem study_type_rename_round_trip (table : list StudyType) :
  NoDup (map pk table) ->
  (count_name efp_old table = 1 -> count_name external_old table = 1 ->
   count_name efp_new table = 0 -> count_name external_new table = 0 ->
   update_study_type_names table = Return (map forward_row table)
   /\ revert_study_type_names (map forward_row table) = Return table)
  /\ (count_name efp_new table = 1 -> count_name external_new table = 1 ->
      count_name efp_old table = 0 -> count_name external_old table = 0 ->
      revert_study_type_names table = Return (map reverse_row table)
      /\ update_study_type_names (map reverse_row table) = Return table)
  /\ (forall row, name row <> efp_old -> name row <> external_old ->
        forward_row row = row)
  /\ (forall row, name row <> efp_new -> name row <> external_new ->
        reverse_row row = row).
Proof.
  intros Hnd. split; [|split; [|split]].
  - intros C1 C2 C3 C4.
    unfold update_study_type_names, revert_study_type_names.
    replace (map forward_row table)
      with (map (renamed external_old external_new)
              (map (renamed efp_old efp_new) table))
      by (rewrite map_map; reflexivity).
    apply study_type_names_there_and_back;
      first [reflexivity | discriminate | assumption].
  - intros C1 C2 C3 C4.
    unfold update_study_type_names, revert_study_type_names.
    replace (map reverse_row table)
      with (map (renamed external_new external_old)
              (map (renamed efp_new efp_old) table))
      by (rewrite map_map; reflexivity).
    apply study_type_names_there_and_back;
      first [reflexivity | discriminate | assumption].
  - intros row H1 H2. unfold forward_row, renamed.
    rewrite (decide_False (P := name row = efp_old)) by exact H1.
    rewrite decide_False by exact H2. reflexivity.
  - intros row H1 H2. unfold reverse_row, renamed.
    rewrite (decide_False (P := name row = efp_new)) by exact H1.
    rewrite decide_False by exact H2. reflexivity.
Qed.

Lemma study_type_rename_round_trip_witness :
  update_study_type_names standard_catalog
    = Return (map forward_row standard_catalog)
  /\ revert_study_type_names (map forward_row standard_catalog)
     = Return standard_catalog.
Proof.
  apply (study_type_rename_round_trip standard_catalog).
  - apply (bool_decide_eq_true_1 _). reflexivity.
  - reflexivity.
  - reflexivity.
  - reflexivity.
  - reflexivity.
Defined.

(** On a catalog that holds the two old names and, in a third row, the new
    name of the frame player, the forward rename succeeds and the reverse
    rename then fails: two rows carry the name it looks up. *)
Lemma study_type_rename_not_reversible :
  count_name efp_old crowded_catalog = 1
  /\ count_name external_old crowded_catalog = 1
  /\ update_study_type_names crowded_catalog
     = Return [ {| pk := 1; name := efp_new |};
                {| pk := 2; name := external_new |};
                {| pk := 3; name := efp_new |} ]
  /\ (table ← update_study_type_names crowded_catalog;
      revert_study_type_names table) = Raise MultipleObjectsReturned.
Proof. repeat split; vm_compute; reflexivity. Qed.

(** ** The age-range validator *)

Local Open Scope Z_scope.

Section Rounding.
Lemma shr_1_nonneg (mrs : shr_record) : 0 <= shr_m mrs -> 0 <= shr_m (shr_1 mrs).
Proof.
  destruct mrs as [m r s]. destruct m as [|[p|p|]|p]; simpl; lia.
Qed.

Lemma iter_shr_1_nonneg (p : positive) (mrs : shr_record) :
  0 <= shr_m mrs -> 0 <= shr_m (SpecFloat.iter_pos shr_1 p mrs).
Proof.
  revert mrs. induction p as [p IH|p IH|]; intros mrs H; simpl.
  - apply IH, IH, shr_1_nonneg, H.
  - apply IH, IH, H.
  - apply shr_1_nonneg, H.
Qed.


End Rounding.













(** ** Rounding error of the float total *)

(** *** Binary digits *)

Lemma digits2_pos_bounds (p : positive) :
  2 ^ (Z.pos (digits2_pos p) - 1) <= Z.pos p < 2 ^ Z.pos (digits2_pos p).
Proof.
  induction p as [p IH|p IH|]; simpl digits2_pos.
  - rewrite Pos2Z.inj_succ.
    replace (Z.succ (Z.pos (digits2_pos p)) - 1) with (Z.succ (Z.pos (digits2_pos p) - 1)) by lia.
    rewrite !Z.pow_succ_r by lia. lia.
  - rewrite Pos2Z.inj_succ.
    replace (Z.succ (Z.pos (digits2_pos p)) - 1) with (Z.succ (Z.pos (digits2_pos p) - 1)) by lia.
    rewrite !Z.pow_succ_r by lia. lia.
  - simpl. lia.
Qed.

Lemma Zdigits2_bounds (m : Z) :
  0 < m -> 2 ^ (Zdigits2 m - 1) <= m < 2 ^ Zdigits2 m.
Proof.
  destruct m as [|p|p]; try lia. intros _. apply digits2_pos_bounds.
Qed.

Lemma Zdigits2_pos (m : Z) : 0 < m -> 0 < Zdigits2 m.
Proof. destruct m; simpl; lia. Qed.

(** The number of digits is determined by the two powers of two around a
    number. *)
Lemma Zdigits2_unique (m d : Z) :
  0 < m -> 2 ^ (d - 1) <= m < 2 ^ d -> Zdigits2 m = d.
Proof.
  intros Hm [Hlo Hhi].
  pose proof (Zdigits2_bounds m Hm) as [Hlo' Hhi'].
  pose proof (Zdigits2_pos m Hm) as Hd.
  assert (Hd0 : 0 < d).
  { destruct (Z_lt_le_dec 0 d) as [H|H]; [exact H|].
    exfalso. destruct (Z.eq_dec d 0) as [->|Hd0].
    - simpl in Hhi. lia.
    - rewrite (Z.pow_neg_r 2 d) in Hhi by lia. lia. }
  destruct (Z.lt_trichotomy (Zdigits2 m) d) as [H|[H|H]]; [|exact H|].
  - exfalso. assert (2 ^ Zdigits2 m <= 2 ^ (d - 1)) by (apply Z.pow_le_mono_r; lia). lia.
  - exfalso. assert (2 ^ d <= 2 ^ (Zdigits2 m - 1)) by (apply Z.pow_le_mono_r; lia). lia.
Qed.

(** *** Shifting right *)

Lemma shr_1_m (mrs : shr_record) :
  0 <= shr_m mrs -> shr_m (shr_1 mrs) = shr_m mrs / 2.
Proof.
  destruct mrs as [m r s]. destruct m as [|[p|p|]|p]; simpl; intros H;
    try reflexivity; try lia.
  - rewrite (Pos2Z.inj_xI p). Z.div_mod_to_equations. lia.
  - rewrite (Pos2Z.inj_xO p). Z.div_mod_to_equations. lia.
Qed.

Lemma iter_shr_1_m (p : positive) (mrs : shr_record) :
  0 <= shr_m mrs ->
  shr_m (SpecFloat.iter_pos shr_1 p mrs) = shr_m mrs / 2 ^ Z.pos p.
Proof.
  revert mrs. induction p as [p IH|p IH|]; intros mrs H; simpl SpecFloat.iter_pos.
  - rewrite IH by (apply iter_shr_1_nonneg, shr_1_nonneg, H).
    rewrite IH by (apply shr_1_nonneg, H).
    rewrite shr_1_m by exact H.
    rewrite !Z.div_div by lia.
    f_equal. rewrite (Pos2Z.inj_xI p).
    replace (2 * Z.pos p + 1) with (1 + Z.pos p + Z.pos p) by lia.
    rewrite !Z.pow_add_r by lia. change (2 ^ 1) with 2. ring.
  - rewrite IH by (apply iter_shr_1_nonneg, H).
    rewrite IH by exact H.
    rewrite !Z.div_div by lia.
    f_equal. rewrite (Pos2Z.inj_xO p).
    replace (2 * Z.pos p) with (Z.pos p + Z.pos p) by lia.
    rewrite Z.pow_add_r by lia. reflexivity.
  - apply shr_1_m, H.
Qed.

Lemma shr_m_of_loc (m : Z) (l : location) : shr_m (shr_record_of_loc m l) = m.
Proof. destruct l as [|[]]; reflexivity. Qed.

(** [shr_fexp] brings a mantissa with more than [prec] digits down to [prec]
    digits and leaves a shorter one alone. *)
Lemma shr_fexp_m (m e : Z) (l : location) :
  0 <= m ->
  let n := Z.max 0 (fexp prec emax (Zdigits2 m + e) - e) in
  shr_m (fst (shr_fexp prec emax m e l)) = m / 2 ^ n
  /\ snd (shr_fexp prec emax m e l) = e + n.
Proof.
  intros Hm n. subst n. unfold shr_fexp, shr.
  destruct (fexp prec emax (Zdigits2 m + e) - e) as [|p|p] eqn:E; simpl fst; simpl snd.
  - rewrite shr_m_of_loc. simpl. rewrite Z.div_1_r. split; [reflexivity | lia].
  - rewrite iter_shr_1_m by (rewrite shr_m_of_loc; exact Hm).
    rewrite shr_m_of_loc. rewrite Z.max_r by lia. split; reflexivity.
  - rewrite shr_m_of_loc. rewrite Z.max_l by lia. simpl. rewrite Z.div_1_r.
    split; [reflexivity | lia].
Qed.

Lemma round_nearest_even_cases (m : Z) (l : location) :
  round_nearest_even m l = m \/ round_nearest_even m l = m + 1.
Proof.
  destruct l as [|[]]; simpl; auto. destruct (Z.even m); auto.
Qed.

(** *** Rounding a mantissa of at least [prec] digits *)

Lemma div_pow2_bounds (mx d n : Z) :
  0 <= n -> n <= d - 1 ->
  2 ^ (d - 1) <= mx < 2 ^ d ->
  2 ^ (d - 1 - n) <= mx / 2 ^ n < 2 ^ (d - n)
  /\ mx / 2 ^ n * 2 ^ n <= mx < (mx / 2 ^ n + 1) * 2 ^ n.
Proof.
  intros Hn Hd [Hlo Hhi].
  assert (Hp : 0 < 2 ^ n) by (apply Z.pow_pos_nonneg; lia).
  split; [split|].
  - apply Z.div_le_lower_bound; [exact Hp|].
    rewrite <- Z.pow_add_r by lia. replace (n + (d - 1 - n)) with (d - 1) by lia.
    exact Hlo.
  - apply Z.div_lt_upper_bound; [exact Hp|].
    rewrite <- Z.pow_add_r by lia. replace (n + (d - n)) with d by lia.
    exact Hhi.
  - pose proof (Z.div_mod mx (2 ^ n) ltac:(lia)) as Hdm.
    pose proof (Z.mod_pos_bound mx (2 ^ n) Hp) as Hmod.
    nia.
Qed.

Lemma binary_round_aux_bracket (mx ex : Z) (lx : location) :
  0 < mx -> prec <= Zdigits2 mx ->
  -1074 <= ex + (Zdigits2 mx - prec) -> ex + (Zdigits2 mx - prec) < 970 ->
  exists (m' : positive) (e' : Z),
    binary_round_aux prec emax false mx ex lx = S754_finite false m' e'
    /\ 2 ^ 52 <= Z.pos m' < 2 ^ 53
    /\ ex + (Zdigits2 mx - prec) <= e' <= ex + (Zdigits2 mx - prec) + 1
    /\ mx - 2 ^ (Zdigits2 mx - prec) < Z.pos m' * 2 ^ (e' - ex)
       <= mx + 2 ^ (Zdigits2 mx - prec).
Proof.
  intros Hmx Hd Hlo Hhi.
  set (d := Zdigits2 mx) in *. set (n := d - prec) in *.
  assert (Hn : 0 <= n) by (subst n; lia).
  pose proof (Zdigits2_bounds mx Hmx) as Hmxb. fold d in Hmxb.
  destruct (div_pow2_bounds mx d n Hn ltac:(subst n; unfold prec; lia) Hmxb)
    as [Hm1 Hm1v].
  replace (d - 1 - n) with 52 in Hm1 by (subst n; unfold prec; lia).
  replace (d - n) with 53 in Hm1 by (subst n; unfold prec; lia).
  set (m1 := mx / 2 ^ n) in *.
  unfold binary_round_aux.
  pose proof (shr_fexp_m mx ex lx ltac:(lia)) as H1. cbv zeta in H1.
  fold d in H1.
  replace (Z.max 0 (fexp prec emax (d + ex) - ex)) with n in H1
    by (unfold fexp, SpecFloat.emin, prec, emax in *; subst n; lia).
  fold m1 in H1.
  destruct (shr_fexp prec emax mx ex lx) as [mrs' e1]. simpl in H1.
  destruct H1 as [Hm Hse]. rewrite Hm. subst e1.
  set (m2 := round_nearest_even m1 (loc_of_shr_record mrs')).
  assert (Hm2 : m2 = m1 \/ m2 = m1 + 1) by apply round_nearest_even_cases.
  assert (Hm2pos : 0 < m2) by lia.
  pose proof (shr_fexp_m m2 (ex + n) loc_Exact ltac:(lia)) as H2. cbv zeta in H2.
  assert (Hpn : 0 < 2 ^ n) by (apply Z.pow_pos_nonneg; lia).
  destruct (Z_lt_le_dec m2 (2 ^ 53)) as [Hlt|Hge].
  - (* no carry: the rounded mantissa still has 53 digits *)
    assert (Hd2 : Zdigits2 m2 = 53) by (apply Zdigits2_unique; simpl; lia).
    rewrite Hd2 in H2.
    replace (Z.max 0 (fexp prec emax (53 + (ex + n)) - (ex + n))) with 0 in H2
      by (unfold fexp, SpecFloat.emin, prec, emax in *; lia).
    destruct (shr_fexp prec emax m2 (ex + n) loc_Exact) as [mrs'' e2].
    simpl in H2. destruct H2 as [Hm'' He2]. rewrite Z.div_1_r in Hm''.
    rewrite Hm''. subst e2.
    destruct m2 as [|p2|p2] eqn:Ep2; try lia.
    replace (ex + n + 0 <=? emax - prec) with true
      by (symmetry; apply Z.leb_le; unfold emax, prec; lia).
    exists p2, (ex + n + 0). split; [reflexivity|].
    split; [simpl in *; lia|]. split; [lia|].
    replace (ex + n + 0 - ex) with n by lia. nia.
  - (* carry: the rounded mantissa is 2^53 and is shifted once more *)
    assert (Em2 : m2 = 2 ^ 53) by lia.
    assert (Hd2 : Zdigits2 m2 = 54) by (apply Zdigits2_unique; rewrite ?Em2; simpl; lia).
    rewrite Hd2 in H2.
    replace (Z.max 0 (fexp prec emax (54 + (ex + n)) - (ex + n))) with 1 in H2
      by (unfold fexp, SpecFloat.emin, prec, emax in *; lia).
    destruct (shr_fexp prec emax m2 (ex + n) loc_Exact) as [mrs'' e2].
    simpl in H2. destruct H2 as [Hm'' He2]. rewrite Em2 in Hm''.
    change (2 ^ 53 / 2 ^ 1) with (2 ^ 52) in Hm''.
    rewrite Hm''. subst e2. change (2 ^ 52) with (Z.pos (2 ^ 52)%positive).
    cbv iota beta.
    replace (ex + n + 1 <=? emax - prec) with true
      by (symmetry; apply Z.leb_le; unfold emax, prec; lia).
    exists (2 ^ 52)%positive, (ex + n + 1). split; [reflexivity|].
    split; [simpl; lia|]. split; [lia|].
    replace (ex + n + 1 - ex) with (n + 1) by lia.
    rewrite Z.pow_add_r by lia. change (2 ^ 1) with 2.
    change (Z.pos (2 ^ 52)) with (2 ^ 52).
    assert (E : 2 ^ 52 * (2 ^ n * 2) = m2 * 2 ^ n) by (rewrite Em2; change (2^53) with (2^52 * 2); ring).
    rewrite E. nia.
Qed.

(** *** Rounding an integer multiple of a power of two *)

Lemma pos_iter_xO (p : positive) (n : positive) :
  Z.pos (Pos.iter xO p n) = Z.pos p * 2 ^ Z.pos n.
Proof.
  revert p. induction n as [|n IH] using Pos.peano_ind; intros p.
  - simpl Pos.iter. rewrite (Pos2Z.inj_xO p). change (2 ^ 1) with 2. ring.
  - rewrite Pos.iter_succ. rewrite (Pos2Z.inj_xO (Pos.iter xO p n)), IH.
    rewrite Pos2Z.inj_succ, Z.pow_succ_r by lia. ring.
Qed.

Lemma Zdigits2_shift (m k : Z) :
  0 < m -> 0 <= k -> Zdigits2 (m * 2 ^ k) = Zdigits2 m + k.
Proof.
  intros Hm Hk.
  pose proof (Zdigits2_bounds m Hm) as [Hlo Hhi].
  pose proof (Zdigits2_pos m Hm) as Hd.
  assert (Hp : 0 < 2 ^ k) by (apply Z.pow_pos_nonneg; lia).
  apply Zdigits2_unique; [nia|].
  replace (Zdigits2 m + k - 1) with (Zdigits2 m - 1 + k) by lia.
  rewrite !Z.pow_add_r by lia. nia.
Qed.

Lemma binary_round_bracket (s : positive) (ez K : Z) :
  let e0 := ez + Zdigits2 (Z.pos s) - prec in
  0 <= ez + K -> 0 <= e0 + K -> -1074 <= e0 -> e0 < 970 ->
  exists (m' : positive) (e' : Z),
    binary_round prec emax false s ez = S754_finite false m' e'
    /\ 2 ^ 52 <= Z.pos m' < 2 ^ 53
    /\ e0 <= e' <= e0 + 1
    /\ Z.abs (Z.pos m' * 2 ^ (e' + K) - Z.pos s * 2 ^ (ez + K)) <= 2 ^ (e0 + K)
    /\ 2 ^ (e0 + K) * 2 ^ 52 <= Z.pos s * 2 ^ (ez + K).
Proof.
  intros e0 HzK H0K Hlo Hhi. subst e0.
  set (d := Zdigits2 (Z.pos s)) in *.
  pose proof (Zdigits2_bounds (Z.pos s) ltac:(lia)) as Hsb. fold d in Hsb.
  pose proof (Zdigits2_pos (Z.pos s) ltac:(lia)) as Hdpos. fold d in Hdpos.
  assert (Hrel : 2 ^ (ez + d - prec + K) * 2 ^ 52 <= Z.pos s * 2 ^ (ez + K)).
  { rewrite <- Z.pow_add_r by lia.
    replace (ez + d - prec + K + 52) with (d - 1 + (ez + K)) by (unfold prec; lia).
    rewrite Z.pow_add_r by lia.
    apply Z.mul_le_mono_nonneg_r; [apply Z.pow_nonneg; lia | lia]. }
  unfold binary_round.
  change (Z.pos (digits2_pos s)) with d.
  replace (fexp prec emax (d + ez)) with (ez + d - prec)
    by (unfold fexp, SpecFloat.emin, prec, emax in *; lia).
  unfold shl_align.
  destruct (ez + d - prec - ez) as [|k|k] eqn:Ek.
  - (* exactly [prec] digits *)
    destruct (binary_round_aux_bracket (Z.pos s) ez loc_Exact)
      as (m' & e' & Hr & Hm & He & Hv); fold d; try (unfold prec in *; lia).
    fold d in He, Hv.
    exists m', e'. split; [exact Hr|]. split; [exact Hm|].
    replace (d - prec) with 0 in * by lia. split; [lia|]. split; [|exact Hrel].
    replace (e' + K) with ((e' - ez) + (ez + K)) by lia.
    rewrite (Z.pow_add_r 2 (e' - ez) (ez + K)) by lia. rewrite Z.mul_assoc.
    rewrite <- Z.mul_sub_distr_r.
    replace (ez + d - prec + K) with (ez + K) by lia.
    assert (Hp : 0 < 2 ^ (ez + K)) by (apply Z.pow_pos_nonneg; lia).
    change (2 ^ 0) with 1 in Hv.
    rewrite Z.abs_mul, (Z.abs_eq (2 ^ (ez + K))) by lia.
    rewrite <- (Z.mul_1_l (2 ^ (ez + K))) at 2.
    apply Z.mul_le_mono_nonneg_r; lia.
  - (* more digits: no alignment *)
    destruct (binary_round_aux_bracket (Z.pos s) ez loc_Exact)
      as (m' & e' & Hr & Hm & He & Hv); fold d; try (unfold prec in *; lia).
    fold d in He, Hv.
    exists m', e'. split; [exact Hr|]. split; [exact Hm|].
    split; [lia|]. split; [|exact Hrel].
    replace (e' + K) with ((e' - ez) + (ez + K)) by lia.
    rewrite (Z.pow_add_r 2 (e' - ez) (ez + K)) by lia. rewrite Z.mul_assoc.
    rewrite <- Z.mul_sub_distr_r.
    replace (ez + d - prec + K) with ((d - prec) + (ez + K)) by lia.
    rewrite (Z.pow_add_r 2 (d - prec) (ez + K)) by lia.
    assert (Hp : 0 < 2 ^ (ez + K)) by (apply Z.pow_pos_nonneg; lia).
    rewrite Z.abs_mul, (Z.abs_eq (2 ^ (ez + K))) by lia.
    apply Z.mul_le_mono_nonneg_r; lia.
  - (* fewer digits: the mantissa is shifted left to [prec] digits *)
    assert (Hk : Z.pos k = prec - d) by lia.
    assert (Hdig : Zdigits2 (Z.pos (Pos.iter xO s k)) = prec).
    { rewrite pos_iter_xO, Zdigits2_shift by lia. fold d. lia. }
    destruct (binary_round_aux_bracket (Z.pos (Pos.iter xO s k)) (ez + d - prec) loc_Exact)
      as (m' & e' & Hr & Hm & He & Hv); rewrite ?Hdig; try (unfold prec in *; lia).
    rewrite Hdig in *.
    exists m', e'. split; [exact Hr|]. split; [exact Hm|].
    replace (prec - prec) with 0 in * by lia. split; [lia|]. split; [|exact Hrel].
    change (2 ^ 0) with 1 in Hv. rewrite pos_iter_xO in Hv.
    replace (e' + K) with ((e' - (ez + d - prec)) + (ez + d - prec + K)) by lia.
    rewrite (Z.pow_add_r 2 (e' - (ez + d - prec))) by lia. rewrite Z.mul_assoc.
    replace (ez + K) with (Z.pos k + (ez + d - prec + K)) by lia.
    rewrite (Z.pow_add_r 2 (Z.pos k)) by lia. rewrite (Z.mul_assoc (Z.pos s)).
    rewrite <- Z.mul_sub_distr_r.
    assert (Hp : 0 < 2 ^ (ez + d - prec + K)) by (apply Z.pow_pos_nonneg; lia).
    rewrite Z.abs_mul, (Z.abs_eq (2 ^ (ez + d - prec + K))) by lia.
    rewrite <- (Z.mul_1_l (2 ^ (ez + d - prec + K))) at 2.
    apply Z.mul_le_mono_nonneg_r; lia.
Qed.

(** *** Floats as scaled integers *)



Lemma digits_le_of_lt_pow (a k : Z) :
  0 < a -> 0 <= k -> a < 2 ^ k -> Zdigits2 a <= k.
Proof.
  intros Ha Hk Hlt.
  pose proof (Zdigits2_bounds a Ha) as [Hlo _].
  pose proof (Zdigits2_pos a Ha).
  destruct (Z_le_gt_dec (Zdigits2 a) k) as [H'|H']; [exact H'|].
  exfalso. assert (2 ^ k <= 2 ^ (Zdigits2 a - 1)) by (apply Z.pow_le_mono_r; lia).
  lia.
Qed.


(** The float of a non-negative integer below [2^31], within a relative
    error of [2^-52]. *)
Lemma float_of_int_good (y : Z) :
  0 <= y < 2 ^ 31 ->
  exists f v, float_of_int y = Return f /\ good 0 f v
              /\ Z.abs (v - y * 2 ^ 64) * 2 ^ 52 <= y * 2 ^ 64.
Proof.
  intros [Hy0 Hy]. unfold float_of_int.
  destruct y as [|p|p]; try lia.
  - exists (S754_zero false), 0. split; [reflexivity|]. split; [constructor|].
    simpl. lia.
  - simpl binary_normalize.
    pose proof (digits_le_of_lt_pow (Z.pos p) 31 ltac:(lia) ltac:(lia) Hy) as Hd.
    pose proof (Zdigits2_pos (Z.pos p) ltac:(lia)) as Hd0.
    destruct (binary_round_bracket p 0 64) as (m' & e' & Hr & Hm & He & Hv & Hrel);
      try (unfold prec; lia).
    rewrite Hr. exists (S754_finite false m' e'), (scaled m' e').
    split; [reflexivity|]. split; [constructor; unfold prec in *; lia|].
    unfold scaled. change (0 + 64) with 64 in *.
    apply Z.le_trans with (2 ^ (0 + Zdigits2 (Z.pos p) - prec + 64) * 2 ^ 52);
      [|exact Hrel].
    apply Z.mul_le_mono_nonneg_r; [lia | exact Hv].
Qed.

(** The quotient of a non-negative integer below [2^31] by a positive one
    below [2^10]: the float is within [3 * 2^-23] of the exact quotient. *)
Lemma int_truediv_good (a b : Z) :
  0 <= a < 2 ^ 31 -> 0 < b < 2 ^ 10 ->
  exists f v, int_truediv a b = Return f /\ good 0 f v
              /\ Z.abs (b * v - a * 2 ^ 64) <= 3 * b * 2 ^ 41.
Proof.
  intros [Ha0 Ha] [Hb0 Hb]. unfold int_truediv.
  destruct b as [|pb|pb]; try lia.
  destruct a as [|pa|pa]; try lia.
  - exists (S754_zero false), 0. split; [reflexivity|]. split; [constructor|].
    simpl. lia.
  - change (xorb (Z.pos pa <? 0) (Z.pos pb <? 0)) with false.
    change (Z.abs (Z.pos pa)) with (Z.pos pa).
    change (Z.abs (Z.pos pb)) with (Z.pos pb).
    unfold SFdiv_core_binary.
    set (d1 := Zdigits2 (Z.pos pa)). set (d2 := Zdigits2 (Z.pos pb)).
    pose proof (digits_le_of_lt_pow (Z.pos pa) 31 ltac:(lia) ltac:(lia) Ha) as Hd1.
    pose proof (digits_le_of_lt_pow (Z.pos pb) 10 ltac:(lia) ltac:(lia) Hb) as Hd2.
    pose proof (Zdigits2_pos (Z.pos pa) ltac:(lia)) as Hd1p.
    pose proof (Zdigits2_pos (Z.pos pb) ltac:(lia)) as Hd2p.
    pose proof (Zdigits2_bounds (Z.pos pa) ltac:(lia)) as [Halo Hahi].
    pose proof (Zdigits2_bounds (Z.pos pb) ltac:(lia)) as [Hblo Hbhi].
    fold d1 in Hd1, Hd1p, Halo, Hahi. fold d2 in Hd2, Hd2p, Hblo, Hbhi.
    replace (Z.min (fexp prec emax (d1 + 0 - (d2 + 0))) (0 - 0))
      with (d1 - d2 - 53)
      by (unfold fexp, SpecFloat.emin, prec, emax; lia).
    set (e0 := d1 - d2 - 53).
    destruct (0 - 0 - e0) as [|s|s] eqn:Es; try (subst e0; lia).
    rewrite Z.shiftl_mul_pow2 by lia.
    assert (Hs : Z.pos s = 53 + d2 - d1) by (subst e0; lia).
    set (P := 2 ^ Z.pos s).
    change (IntDef.Z.div_eucl (Z.pos pa * P) (Z.pos pb))
      with (Z.div_eucl (Z.pos pa * P) (Z.pos pb)).
    pose proof (Z_div_mod (Z.pos pa * P) (Z.pos pb) ltac:(lia)) as Hdiv.
    destruct (Z.div_eucl (Z.pos pa * P) (Z.pos pb)) as [q r].
    destruct Hdiv as [Hqr Hr].
    (* the quotient has 53 or 54 digits *)
    assert (HP : 0 < P) by (apply Z.pow_pos_nonneg; lia).
    assert (E1 : 2 ^ (52 + d2) = 2 ^ (d1 - 1) * P).
    { subst P. rewrite Hs, <- Z.pow_add_r by lia. f_equal. lia. }
    assert (E2 : 2 ^ (53 + d2) = 2 ^ d1 * P).
    { subst P. rewrite Hs, <- Z.pow_add_r by lia. f_equal. lia. }
    assert (HaP : 2 ^ (52 + d2) <= Z.pos pa * P < 2 ^ (53 + d2)).
    { rewrite E1, E2. split; nia. }
    clear E1 E2.
    rewrite !Z.pow_add_r in HaP by lia.
    assert (Hb2 : 2 ^ d2 = 2 * 2 ^ (d2 - 1)).
    { replace d2 with (1 + (d2 - 1)) at 1 by lia. rewrite Z.pow_add_r by lia.
      reflexivity. }
    assert (Hq : 2 ^ 52 <= q < 2 ^ 54).
    { change (2 ^ 54) with (2 ^ 53 * 2). split; nia. }
    assert (Hqpos : 0 < q) by lia.
    assert (Hdq : Zdigits2 q = 53 \/ Zdigits2 q = 54).
    { destruct (Z_lt_le_dec q (2 ^ 53)).
      - left. apply Zdigits2_unique; simpl; lia.
      - right. apply Zdigits2_unique; simpl; lia. }
    destruct (binary_round_aux_bracket q e0 (new_location (Z.pos pb) r))
      as (m' & e' & Hrd & Hm & He & Hv); try (unfold prec; subst e0; lia).
    rewrite Hrd. exists (S754_finite false m' e'), (scaled m' e').
    split; [reflexivity|].
    split; [constructor; [exact Hm | unfold prec in *; subst e0; lia]|].
    (* the value *)
    assert (Hn2 : 2 ^ (Zdigits2 q - prec) <= 2).
    { destruct Hdq as [-> | ->]; unfold prec; simpl; lia. }
    assert (Hn0 : 0 < 2 ^ (Zdigits2 q - prec)).
    { destruct Hdq as [-> | ->]; unfold prec; simpl; lia. }
    set (W := Z.pos m' * 2 ^ (e' - e0)) in *.
    set (Q := 2 ^ (e0 + 64)).
    assert (HQ : 0 < Q <= 2 ^ 41).
    { subst Q. split; [apply Z.pow_pos_nonneg; subst e0; lia|].
      apply Z.pow_le_mono_r; subst e0; lia. }
    assert (HPQ : P * Q = 2 ^ 64).
    { subst P Q. rewrite <- Z.pow_add_r by (subst e0; lia).
      f_equal. subst e0. lia. }
    assert (HV : scaled m' e' = W * Q).
    { unfold scaled. subst W Q.
      replace (e' + 64) with ((e' - e0) + (e0 + 64)) by lia.
      rewrite Z.pow_add_r by (unfold prec in *; subst e0; lia). ring. }
    rewrite HV.
    replace (Z.pos pb * (W * Q) - Z.pos pa * 2 ^ 64)
      with ((Z.pos pb * (W - q) - r) * Q)
      by (rewrite <- HPQ; nia).
    rewrite Z.abs_mul, (Z.abs_eq Q) by lia.
    assert (Ht : W - q = -1 \/ W - q = 0 \/ W - q = 1 \/ W - q = 2) by lia.
    assert (Z.abs (Z.pos pb * (W - q) - r) <= 3 * Z.pos pb)
      by (destruct Ht as [-> | [-> | [-> | ->]]]; lia).
    apply Z.mul_le_mono_nonneg; [apply Z.abs_nonneg | lia | lia | lia].
Qed.

(** *** Addition *)



(** *** The total of three components *)


(** *** Comparing good floats *)



(** *** Exact totals *)

Lemma exact_total_num (years months days : Z) :
  (exact_total years months days == total_num years months days # 4380)%Q.
Proof.
  unfold exact_total, total_num, Qeq, Qplus, Qdiv, Qmult, Qinv, inject_Z.
  simpl. lia.
Qed.


Lemma exact_total_le (y1 m1 d1 y2 m2 d2 : Z) :
  (exact_total y1 m1 d1 <= exact_total y2 m2 d2)%Q
  <-> total_num y1 m1 d1 <= total_num y2 m2 d2.
Proof.
  rewrite !exact_total_num. unfold Qle. simpl. lia.
Qed.



(** ** What the validator decides *)







(** * Further properties *)

Local Close Scope Z_scope.

(** ** The breadcrumb block, continued *)

Section BlankText.
Lemma string_forallb_app (p : ascii -> bool) (a b : string) :
  string_forallb p (a +:+ b) = string_forallb p a && string_forallb p b.
Proof.
  induction a as [|c a IH]; simpl; [reflexivity|].
  rewrite IH. apply andb_assoc.
Qed.

Lemma string_forallb_rev (p : ascii -> bool) (s : string) :
  string_forallb p (string_rev s) = string_forallb p s.
Proof.
  induction s as [|c s IH]; simpl; [reflexivity|].
  rewrite string_forallb_app, IH. simpl. rewrite andb_true_r. apply andb_comm.
Qed.

Lemma string_rev_empty (s : string) : string_rev s = EmptyString -> s = EmptyString.
Proof.
  destruct s as [|c s]; [reflexivity|]. simpl.
  destruct (string_rev s); discriminate.
Qed.

Lemma lstrip_empty_iff (s : string) :
  lstrip s = EmptyString <-> string_forallb isspace s = true.
Proof.
  induction s as [|c s IH]; simpl; [tauto|].
  destruct (isspace c); simpl; [exact IH|]. split; discriminate.
Qed.

(** What [lstrip] leaves is empty or starts with a character that is not
    white space. *)
Lemma lstrip_head (s : string) :
  lstrip s = EmptyString
  \/ exists c t, lstrip s = String c t /\ isspace c = false.
Proof.
  induction s as [|c s IH]; simpl; [left; reflexivity|].
  destruct (isspace c) eqn:E; [exact IH|]. right. eauto.
Qed.

Lemma strip_empty_iff (s : string) :
  strip s = EmptyString <-> string_forallb isspace s = true.
Proof.
  unfold strip, rstrip. split.
  - intros H. apply string_rev_empty in H. apply lstrip_empty_iff in H.
    rewrite string_forallb_rev in H.
    destruct (lstrip_head s) as [E | (c & t & E & Hc)].
    + apply lstrip_empty_iff, E.
    + rewrite E in H. simpl in H. rewrite Hc in H. discriminate.
  - intros H. apply lstrip_empty_iff in H. rewrite H. reflexivity.
Qed.
End BlankText.

(** X1: a breadcrumb child node counts as blank exactly when the text it
    renders consists of white-space characters only, the empty text
    included. *)
Theorem renders_blank_iff_whitespace {T : Type} (ctx : T) (node : Node T) :
  renders_blank ctx node = true
  <-> string_forallb isspace (node_render node ctx) = true.
Proof.
  unfold renders_blank. rewrite String.eqb_eq. apply strip_empty_iff.
Qed.

Section LoopFacts.
Context {T : Type} (ctx : T).

Lemma loop_survivors (fuel : nat) :
  forall done rest : list (Node T),
    length rest <= fuel ->
    NoDup (map node_id (done ++ rest)) ->
    remove_empty_loop ctx fuel (length done) (done ++ rest)
      = done ++ survivors ctx rest.
Proof.
  induction fuel as [|fuel IH]; intros done rest Hlen Hnd.
  - destruct rest; [reflexivity | simpl in Hlen; lia].
  - destruct rest as [|x rest]; simpl remove_empty_loop.
    + rewrite lookup_ge_None_2 by (rewrite app_nil_r; lia). reflexivity.
    + rewrite list_lookup_middle by reflexivity. simpl survivors.
      destruct (renders_blank ctx x) eqn:Ex.
      * rewrite list_remove_middle by exact Hnd.
        assert (Hnd' : NoDup (map node_id (done ++ rest))).
        { rewrite map_app in *. simpl in Hnd.
          apply NoDup_app in Hnd as (H1 & H2 & H3).
          apply NoDup_cons in H3 as [_ H3].
          apply NoDup_app. split; [exact H1|]. split; [|exact H3].
          intros k Hk Hk'. apply (H2 k Hk). right. exact Hk'. }
        destruct rest as [|y rest].
        { destruct fuel; simpl.
          - reflexivity.
          - rewrite lookup_ge_None_2 by (rewrite app_nil_r; lia). reflexivity. }
        replace (S (length done)) with (length (done ++ [y]))
          by (rewrite length_app; simpl; lia).
        replace (done ++ y :: rest) with ((done ++ [y]) ++ rest)
          by (rewrite <- app_assoc; reflexivity).
        rewrite IH.
        -- rewrite <- app_assoc. reflexivity.
        -- simpl in Hlen. lia.
        -- rewrite <- app_assoc. exact Hnd'.
      * replace (S (length done)) with (length (done ++ [x]))
          by (rewrite length_app; simpl; lia).
        replace (done ++ x :: rest) with ((done ++ [x]) ++ rest)
          by (rewrite <- app_assoc; reflexivity).
        rewrite IH.
        -- rewrite <- app_assoc. reflexivity.
        -- simpl in Hlen. lia.
        -- rewrite <- app_assoc. exact Hnd.
Qed.


Lemma loop_from_start (l : list (Node T)) :
  NoDup (map node_id l) -> remove_empty_nodes ctx l = survivors ctx l.
Proof.
  intros Hnd. unfold remove_empty_nodes.
  apply (loop_survivors (length l) [] l); [lia | exact Hnd].
Qed.

Lemma survivors_sublist (l : list (Node T)) : sublist (survivors ctx l) l.
Proof.
  induction l as [l IH] using (induction_ltof1 _ (@length (Node T))).
  unfold ltof in IH. destruct l as [|x [|y rest]]; simpl.
  - constructor.
  - destruct (renders_blank ctx x); [apply sublist_nil_l | reflexivity].
  - destruct (renders_blank ctx x).
    + apply sublist_cons, sublist_skip, IH. simpl. lia.
    + apply sublist_skip. apply (IH (y :: rest)). simpl. lia.
Qed.

Lemma survivors_keep_nonblank (l : list (Node T)) (n : Node T) :
  n ∈ l -> renders_blank ctx n = false -> n ∈ survivors ctx l.
Proof.
  induction l as [l IH] using (induction_ltof1 _ (@length (Node T))).
  unfold ltof in IH. intros Hin Hn.
  destruct l as [|x [|y rest]]; simpl.
  - inversion Hin.
  - apply list_elem_of_singleton in Hin. subst x. rewrite Hn. left.
  - destruct (renders_blank ctx x) eqn:Ex.
    + apply elem_of_cons in Hin as [-> | Hin]; [congruence|].
      apply elem_of_cons in Hin as [-> | Hin]; [left|].
      right. apply IH; [simpl; lia | exact Hin | exact Hn].
    + apply elem_of_cons in Hin as [-> | Hin]; [left|].
      right. apply (IH (y :: rest)); [simpl; lia | exact Hin | exact Hn].
Qed.
End LoopFacts.

(** X2: on a list of distinct node objects the removal loop of
    [BreadcrumbNode.render] drops each blank node it visits and steps over
    the node that follows it, which is kept whether blank or not. Nodes are
    never reordered and no non-blank node is lost. *)
Theorem remove_empty_nodes_survivors {T : Type} (ctx : T) (l : list (Node T)) :
  NoDup (map node_id l) ->
  remove_empty_nodes ctx l = survivors ctx l
  /\ sublist (remove_empty_nodes ctx l) l
  /\ (forall n, n ∈ l -> renders_blank ctx n = false ->
        n ∈ remove_empty_nodes ctx l).
Proof.
  intros Hnd. rewrite loop_from_start by exact Hnd.
  split; [reflexivity|]. split.
  - apply survivors_sublist.
  - intros n. apply survivors_keep_nonblank.
Qed.

Lemma remove_empty_nodes_survivors_witness :
  remove_empty_nodes tt
    [TextNode 0 " "; TextNode 1 " "; TextNode 2 " "; TextNode 3 "x"]
  = [TextNode 1 " "; TextNode 3 "x"].
Proof.
  destruct (remove_empty_nodes_survivors tt
              [TextNode 0 " "; TextNode 1 " "; TextNode 2 " "; TextNode 3 "x"])
    as [H _].
  - apply (bool_decide_eq_true_1 _). reflexivity.
  - rewrite H. reflexivity.
Defined.



(** X4: [render] shortens the node list it works on: with no blank node
    present, each render of the same [BreadcrumbNode] removes the last node
    for good, so the [k]-th re-render starts from the list without its last
    [k] nodes, and once the list is used up every render returns the empty
    string. *)
Theorem breadcrumb_rerender_shrinks {T : Type} (ctx : T) (l : list (Node T)) :
  Forall (fun n => renders_blank ctx n = false) l ->
  (forall k, Nat.iter k (rerender ctx) l = take (length l - k) l)
  /\ (forall k, length l <= k ->
        render ctx (Nat.iter k (rerender ctx) l) = (Return EmptyString, [])).
Proof.
  intros Hnb.
  assert (Hstep : forall s : list (Node T),
            Forall (fun n => renders_blank ctx n = false) s ->
            rerender ctx s = take (length s - 1) s).
  { intros s Hs. destruct (decide (s = [])) as [-> | Hne]; [reflexivity|].
    destruct (exists_last Hne) as (front & last_node & ->).
    unfold rerender. rewrite render_nonempty by exact Hne.
    unfold remove_empty_nodes. rewrite loop_keeps_nonblank by exact Hs.
    rewrite list_pop_snoc. simpl snd. rewrite length_app. simpl length.
    replace (length front + 1 - 1) with (length front) by lia.
    rewrite take_app_length. reflexivity. }
  assert (Hiter : forall k, Nat.iter k (rerender ctx) l = take (length l - k) l).
  { induction k as [|k IH]; simpl.
    - rewrite Nat.sub_0_r, firstn_all. reflexivity.
    - rewrite IH. rewrite Hstep.
      + rewrite length_take, take_take. f_equal. lia.
      + apply Forall_take, Hnb. }
  split; [exact Hiter|].
  intros k Hk. rewrite Hiter.
  replace (length l - k) with 0 by lia. reflexivity.
Qed.

Lemma breadcrumb_rerender_shrinks_witness :
  fst (render tt (rerender tt example_nodes))
  = fst (render tt [TextNode 0 "/a"; TextNode 1 "A"; TextNode 2 "/b";
                    TextNode 3 "B"]).
Proof.
  destruct (breadcrumb_rerender_shrinks tt example_nodes) as [H _].
  - repeat constructor.
  - change (rerender tt example_nodes)
      with (Nat.iter 1 (rerender tt) example_nodes).
    rewrite (H 1). reflexivity.
Defined.

(** ** Navigation tags *)

Lemma append_nil_r_string (s : string) : s +:+ EmptyString = s.
Proof.
  induction s as [|c s IH]; [reflexivity|].
  change (String c (s +:+ EmptyString) = String c s). f_equal. exact IH.
Qed.

Lemma append_assoc_string (a b c : string) : (a +:+ b) +:+ c = a +:+ (b +:+ c).
Proof.
  induction a as [|x a IH]; [reflexivity|].
  change (String x ((a +:+ b) +:+ c) = String x (a +:+ (b +:+ c))).
  f_equal. exact IH.
Qed.

Lemma nav_link_state_resolved (reverse : string -> result string)
    (request : Request) (url_name : string)
    (html_classes : option (list string)) (queryString : option string)
    (reverse_url : bool) (url : string) :
  resolved_url reverse url_name reverse_url = Return url ->
  nav_link_state reverse request url_name html_classes queryString reverse_url
  = Return {| nav_classes :=
                if active_nav request url
                then given_classes html_classes ++ active_marker
                else given_classes html_classes;
              nav_aria_current :=
                if active_nav request url
                then " aria-current=" +:+ dquote +:+ "page" +:+ dquote
                else EmptyString;
              nav_href := url +:+ query_suffix queryString |}.
Proof.
  intros Hurl. unfold nav_link_state. unfold resolved_url in Hurl.
  rewrite Hurl. cbn [mbind result_bind]. f_equal. f_equal.
  destruct queryString as [q|]; simpl.
  - destruct (String.eqb_spec q EmptyString) as [-> | _]; [|reflexivity].
    symmetry. apply append_nil_r_string.
  - symmetry. apply append_nil_r_string.
Qed.

Lemma nav_link_state_raises (reverse : string -> result string)
    (request : Request) (url_name : string)
    (html_classes : option (list string)) (queryString : option string)
    (reverse_url : bool) (e : exception) :
  resolved_url reverse url_name reverse_url = Raise e ->
  nav_link_state reverse request url_name html_classes queryString reverse_url
  = Raise e.
Proof.
  intros Hurl. unfold nav_link_state. unfold resolved_url in Hurl.
  rewrite Hurl. reflexivity.
Qed.

(** X5: [nav_link] extends the list object it is given: after a call on an
    active link the caller's list has the two marker classes appended, so
    [n] calls with the same list object leave [n] copies of the marker in
    it and the next call renders them all; on an inactive link, or when
    [reverse] raises, the list is left as it was. *)
Theorem nav_link_extends_callers_list
    (reverse : string -> result string) (gettext : string -> string)
    (request : Request) (url_name text : string)
    (queryString : option string) (list_ reverse_url : bool) :
  let call := fun classes =>
    nav_link_in_place reverse gettext request url_name text classes
      queryString list_ reverse_url in
  forall html_classes : list string,
    (forall url, resolved_url reverse url_name reverse_url = Return url ->
       path request = url ->
       forall n,
         Nat.iter n (fun classes => snd (call classes)) html_classes
         = html_classes ++ concat (replicate n active_marker))
    /\ (forall url, resolved_url reverse url_name reverse_url = Return url ->
          path request <> url -> snd (call html_classes) = html_classes)
    /\ (forall e, resolved_url reverse url_name reverse_url = Raise e ->
          call html_classes = (Raise e, html_classes)).
Proof.
  intros call html_classes. subst call. split; [|split].
  - intros url Hurl Hpath n. induction n as [|n IH]; simpl.
    + rewrite app_nil_r. reflexivity.
    + rewrite IH. unfold nav_link_in_place.
      rewrite (nav_link_state_resolved _ _ _ _ _ _ url Hurl).
      cbn [snd nav_classes given_classes].
      rewrite (proj2 (active_nav_iff request url) Hpath).
      rewrite <- app_assoc. f_equal.
      clear. induction n as [|n IH]; simpl.
      * reflexivity.
      * rewrite <- IH. reflexivity.
  - intros url Hurl Hpath. unfold nav_link_in_place.
    rewrite (nav_link_state_resolved _ _ _ _ _ _ url Hurl).
    cbn [snd nav_classes given_classes].
    destruct (active_nav request url) eqn:E; [|reflexivity].
    apply active_nav_iff in E. contradiction.
  - intros e Hurl. unfold nav_link_in_place.
    rewrite (nav_link_state_raises _ _ _ _ _ _ e Hurl). reflexivity.
Qed.




(** ** The study-list tabs and the form buttons *)

(** X8: [studies_tab_text] agrees with [studies_tab_selected] whenever the
    latter finds a known tab value, finds nothing or raises: the text is the
    one of the selected value, chosen in the order all, synchronous,
    asynchronous; no selected tab gives [None] in both; a [KeyError] of the
    one is a [KeyError] of the other. Only when the first selected tab has
    an unknown value do they part: the text is then looked for in the tabs
    after it. *)
Theorem studies_tab_text_follows_selected (gettext : string -> string)
    (all_studies synchronous_studies asynchronous_studies : pyval)
    (tabs : list (gmap string pyval)) :
  let text := studies_tab_text gettext all_studies synchronous_studies
                asynchronous_studies in
  match studies_tab_selected tabs with
  | Raise e => text tabs = Raise e
  | Return None => text tabs = Return None
  | Return (Some value) =>
      match tab_text all_studies synchronous_studies asynchronous_studies value with
      | Some message => text tabs = Return (Some (gettext message))
      | None =>
          exists before data after,
            tabs = before ++ data :: after
            /\ data !! "value" = Some value
            /\ text tabs = text after
      end
  end.
Proof.
  intros text. subst text.
  induction tabs as [|data rest IH]; [reflexivity|].
  cbn [studies_tab_text studies_tab_selected].
  unfold getitem, mbind, result_bind.
  destruct (data !! "selected") as [selected|]; [|reflexivity].
  destruct (truthy selected) eqn:Hsel.
  - destruct (data !! "value") as [value|] eqn:Hv; [|reflexivity].
    unfold tab_text.
    destruct (py_eq value all_studies); [reflexivity|].
    destruct (py_eq value synchronous_studies); [reflexivity|].
    destruct (py_eq value asynchronous_studies); [reflexivity|].
    exists [], data, rest. repeat split. exact Hv.
  - destruct (studies_tab_selected rest) as [[value|]|e]; try exact IH.
    destruct (tab_text _ _ _ value); [exact IH|].
    destruct IH as (before & d & after & -> & Hv & Ht).
    exists (data :: before), d, after. repeat split; assumption.
Qed.

Lemma join_empty_app (a b : list string) :
  join EmptyString (a ++ b) = join EmptyString a +:+ join EmptyString b.
Proof.
  unfold join. induction a as [|x a IH]; [reflexivity|].
  destruct a as [|y a].
  - destruct b as [|z b]; simpl.
    + symmetry. apply append_nil_r_string.
    + reflexivity.
  - change (String.concat EmptyString ((x :: y :: a) ++ b))
      with (x +:+ EmptyString +:+ String.concat EmptyString ((y :: a) ++ b)).
    change (String.concat EmptyString (x :: y :: a))
      with (x +:+ EmptyString +:+ String.concat EmptyString (y :: a)).
    rewrite IH. cbn [String.append].
    rewrite append_assoc_string. reflexivity.
Qed.

(** X9: a form-buttons block renders every child node, blank ones too, in
    order inside one wrapper: the text for two node lists put end to end is
    the two texts put end to end. The wrapper is there even for an empty
    node list, so the output is never empty. *)
Theorem form_buttons_concatenates {T : Type} (ctx : T) (l1 l2 : list (Node T)) :
  FormButtonsNode.render ctx (l1 ++ l2)
    = "<div class=" +:+ quoted "d-flex justify-content-end gap-1" +:+ ">"
        +:+ (buttons_inner ctx l1 +:+ buttons_inner ctx l2) +:+ "</div>"
  /\ FormButtonsNode.render ctx []
     = "<div class=" +:+ quoted "d-flex justify-content-end gap-1" +:+ "></div>"
  /\ FormButtonsNode.render ctx (l1 ++ l2) <> EmptyString.
Proof.
  unfold FormButtonsNode.render, buttons_inner.
  rewrite map_app, join_empty_app. split; [reflexivity|].
  split; [reflexivity | discriminate].
Qed.

(** ** The query-string transform, continued *)

Section QueryKeys.
Implicit Types (d : QueryDict) (key k : string) (v : pyval).

Lemma keys_setitem_exact key v d :
  keys (setitem key v d)
    = if bool_decide (key ∈ keys d) then keys d else keys d ++ [key].
Proof.
  induction d as [|[k vs] rest IH]; [reflexivity|].
  cbn [setitem]. destruct (String.eqb k key) eqn:E.
  - apply String.eqb_eq in E. subst k.
    rewrite bool_decide_eq_true_2 by (cbn; left). reflexivity.
  - apply String.eqb_neq in E. unfold keys in *. cbn [map fst]. rewrite IH.
    destruct (decide (key ∈ map fst rest)) as [Hin|Hnin].
    + rewrite !bool_decide_eq_true_2; [reflexivity | right; exact Hin | exact Hin].
    + rewrite !bool_decide_eq_false_2; [reflexivity | | exact Hnin].
      intros Hin. apply elem_of_cons in Hin as [Hin|Hin]; [congruence | tauto].
Qed.

Variable kwargs : gmap string pyval.

Lemma keys_override_exact key d :
  keys (override kwargs key d) =
    keys d ++ filter (fun key => is_Some (effective kwargs key) /\ key ∉ keys d)
                [key].
Proof.
  rewrite override_effective, filter_cons, filter_nil.
  destruct (effective kwargs key) as [v|] eqn:E.
  - rewrite keys_setitem_exact.
    destruct (decide (key ∈ keys d)) as [Hin|Hnin].
    + rewrite bool_decide_eq_true_2 by exact Hin.
      rewrite decide_False by tauto. rewrite app_nil_r. reflexivity.
    + rewrite bool_decide_eq_false_2 by exact Hnin.
      rewrite decide_True; [reflexivity|]. split; [eexists; reflexivity | exact Hnin].
  - rewrite decide_False; [rewrite app_nil_r; reflexivity|].
    intros [[v Hv] _]. discriminate.
Qed.

Lemma filter_agree (P Q : string -> Prop) `{!forall x, Decision (P x)}
    `{!forall x, Decision (Q x)} (l : list string) :
  (forall x, x ∈ l -> P x <-> Q x) -> filter P l = filter Q l.
Proof.
  induction l as [|x l IH]; intros Hagree; [reflexivity|].
  rewrite !filter_cons.
  rewrite IH by (intros y Hy; apply Hagree; right; exact Hy).
  destruct (decide (P x)) as [HP|HP].
  - rewrite decide_True; [reflexivity|]. apply Hagree; [left | exact HP].
  - rewrite decide_False; [reflexivity|].
    intros HQ. apply HP, Hagree; [left | exact HQ].
Qed.

Lemma keys_overrides (ks : list string) d :
  NoDup ks ->
  keys (fold_left (fun d key => override kwargs key d) ks d) =
    keys d ++ filter (fun key => is_Some (effective kwargs key) /\ key ∉ keys d) ks.
Proof.
  revert d. induction ks as [|k ks IH]; intros d Hnd.
  - rewrite filter_nil, app_nil_r. reflexivity.
  - apply NoDup_cons in Hnd as [Hk Hnd]. cbn [fold_left].
    rewrite IH by exact Hnd. rewrite keys_override_exact.
    change (k :: ks) with ([k] ++ ks). rewrite filter_app, app_assoc.
    f_equal. apply filter_agree. intros x Hx.
    assert (Hxk : x <> k) by (intros ->; exact (Hk Hx)).
    rewrite elem_of_app. split; intros [He Hn]; (split; [exact He|]).
    + tauto.
    + intros [Hin|Hin]; [tauto|].
      apply list_elem_of_filter in Hin as [_ Hin].
      apply list_elem_of_singleton in Hin. exact (Hxk Hin).
Qed.
End QueryKeys.

(** X10: the keys of the parameter set that [query_transform] encodes are
    the keys of the request's parameters, in their order, followed by those
    of state, page, match, sort, in this order, that have a present and
    truthy argument and were not among the parameters: no key is dropped, no
    key comes twice because of the transform, and no key other than these
    four is added. When none of the four has such an argument the output is
    the request's own query string, encoded. *)
Theorem query_transform_new_keys (request : Request)
    (kwargs : gmap string pyval) :
  keys (query_transform_updated request kwargs)
    = keys (GET request) ++ new_keys kwargs (GET request)
  /\ ((forall key, key ∈ override_keys -> effective kwargs key = None) ->
      query_transform request kwargs = urlencode (GET request)).
Proof.
  split.
  - change (query_transform_updated request kwargs)
      with (fold_left (fun d key => override kwargs key d) override_keys
              (GET request)).
    apply keys_overrides. apply (bool_decide_eq_true_1 _). reflexivity.
  - intros Hnone. unfold query_transform, query_transform_updated.
    rewrite !override_effective.
    rewrite (Hnone "state"), (Hnone "page"), (Hnone "match"), (Hnone "sort");
      first [reflexivity | unfold override_keys; set_solver].
Qed.

Section UrlSafe.
Lemma quote_plus_char_safe (c : ascii) :
  string_forallb url_safe
    (join EmptyString (map quote_plus_byte (utf8_encode_char c))) = true.
Proof. destruct c as [[] [] [] [] [] [] [] []]; vm_compute; reflexivity. Qed.

Lemma quote_plus_safe (s : string) : string_forallb url_safe (quote_plus s) = true.
Proof.
  unfold quote_plus. induction s as [|c s IH]; [reflexivity|].
  cbn [utf8_encode]. rewrite map_app, join_empty_app, string_forallb_app.
  rewrite quote_plus_char_safe, IH. reflexivity.
Qed.

Lemma join_forallb (p : ascii -> bool) (sep : string) (l : list string) :
  string_forallb p sep = true ->
  Forall (fun s => string_forallb p s = true) l ->
  string_forallb p (join sep l) = true.
Proof.
  intros Hsep Hl. unfold join. induction Hl as [|x l Hx Hl IH]; [reflexivity|].
  destruct l as [|y l]; [exact Hx|].
  change (String.concat sep (x :: y :: l))
    with (x +:+ sep +:+ String.concat sep (y :: l)).
  rewrite !string_forallb_app, Hx, Hsep, IH. reflexivity.
Qed.

Lemma urlencode_item_safe (k : string) (v : pyval) :
  string_forallb url_safe (urlencode_item k v) = true.
Proof.
  unfold urlencode_item. rewrite !string_forallb_app, !quote_plus_safe.
  reflexivity.
Qed.

Lemma urlencode_safe (d : QueryDict) : string_forallb url_safe (urlencode d) = true.
Proof.
  unfold urlencode. apply join_forallb; [reflexivity|].
  apply Forall_forall. intros s Hs. apply list_elem_of_In in Hs.
  apply in_flat_map in Hs as ([k vs] & _ & Hs). cbn [fst snd] in Hs.
  apply in_map_iff in Hs as (v & <- & _). apply urlencode_item_safe.
Qed.
End UrlSafe.

(** X11: whatever the request's parameters and the override arguments hold,
    the text [query_transform] returns is made of letters, digits, [_.-~],
    [+], [%], [=] and [&] only; no quote, angle bracket, space or other
    character of a key or a value reaches the page as it is. *)
Theorem query_transform_url_safe (request : Request)
    (kwargs : gmap string pyval) :
  string_forallb url_safe (query_transform request kwargs) = true.
Proof. apply urlencode_safe. Qed.

(** ** The age-range check, continued *)

Section AgeFields.
Implicit Types (v y m d : option pyval).

Lemma is_small_int_inv v :
  is_small_int v = true ->
  exists n, v = Some (PyInt n) /\ (0 <= n < 2 ^ 31)%Z.
Proof.
  destruct v as [[| | n |]|]; try discriminate. cbn [is_small_int].
  intros H. apply andb_true_iff in H as [H1 H2].
  apply Z.leb_le in H1. apply Z.ltb_lt in H2. eauto.
Qed.

Lemma is_missing_raises v : is_missing v = true -> as_int v = Raise TypeError.
Proof. destruct v as [[]|]; try discriminate; reflexivity. Qed.

Lemma small_int_not_missing v : is_small_int v = true -> is_missing v = false.
Proof. destruct v as [[]|]; try discriminate; reflexivity. Qed.

(** One total: a [TypeError] when a component is missing, a float when the
    three are small integers. *)
Lemma age_total_by_fields y m d :
  is_missing y = true \/ is_small_int y = true ->
  is_missing m = true \/ is_small_int m = true ->
  is_missing d = true \/ is_small_int d = true ->
  if is_missing y || is_missing m || is_missing d
  then BaseStudyForm.age_total y m d = Raise TypeError
  else exists f, BaseStudyForm.age_total y m d = Return f.
Proof.
  intros Hy Hm Hd. unfold BaseStudyForm.age_total.
  destruct Hy as [Hy|Hy].
  { rewrite Hy, (is_missing_raises y Hy). reflexivity. }
  rewrite (small_int_not_missing y Hy).
  destruct (is_small_int_inv y Hy) as (ny & -> & By).
  cbn [as_int mbind result_bind orb].
  destruct Hm as [Hm|Hm].
  { rewrite Hm, (is_missing_raises m Hm). reflexivity. }
  rewrite (small_int_not_missing m Hm).
  destruct (is_small_int_inv m Hm) as (nm & -> & Bm).
  cbn [as_int mbind result_bind orb].
  destruct (int_truediv_good nm 12 Bm ltac:(simpl; lia)) as (fm & vm & -> & _).
  destruct (float_of_int_good ny By) as (fy & vy & -> & _).
  cbn [mbind result_bind mret result_ret].
  destruct Hd as [Hd|Hd].
  { rewrite Hd, (is_missing_raises d Hd). reflexivity. }
  rewrite (small_int_not_missing d Hd).
  destruct (is_small_int_inv d Hd) as (nd & -> & Bd).
  cbn [as_int mbind result_bind].
  destruct (int_truediv_good nd 365 Bd ltac:(simpl; lia)) as (fd & vd & -> & _).
  cbn [mbind result_bind]. eexists. reflexivity.
Qed.
End AgeFields.

(** X12: when each of the six age fields either is missing from the form
    data (or [None]) or holds an integer from [0] to [2^31 - 1], [clean]
    has three outcomes only. With a field missing it raises [TypeError]: a
    form in which an age field failed its own validation is not answered
    with the validation message. With all six present it returns the data
    unchanged or raises the [ValidationError] with the fixed message. *)
Theorem clean_outcome_by_fields (cleaned_data : gmap string pyval) :
  (forall key, key ∈ age_fields ->
     is_missing (cleaned_data !! key) = true
     \/ is_small_int (cleaned_data !! key) = true) ->
  if existsb (fun key => is_missing (cleaned_data !! key)) age_fields
  then BaseStudyForm.clean cleaned_data = Raise TypeError
  else BaseStudyForm.clean cleaned_data = Return cleaned_data
       \/ BaseStudyForm.clean cleaned_data
          = Raise (ValidationError BaseStudyForm.error_message).
Proof.
  intros Hfields.
  assert (Hmin := age_total_by_fields
            (cleaned_data !! "min_age_years") (cleaned_data !! "min_age_months")
            (cleaned_data !! "min_age_days")
            (Hfields "min_age_years" ltac:(apply (bool_decide_eq_true_1 _); reflexivity))
            (Hfields "min_age_months" ltac:(apply (bool_decide_eq_true_1 _); reflexivity))
            (Hfields "min_age_days" ltac:(apply (bool_decide_eq_true_1 _); reflexivity))).
  assert (Hmax := age_total_by_fields
            (cleaned_data !! "max_age_years") (cleaned_data !! "max_age_months")
            (cleaned_data !! "max_age_days")
            (Hfields "max_age_years" ltac:(apply (bool_decide_eq_true_1 _); reflexivity))
            (Hfields "max_age_months" ltac:(apply (bool_decide_eq_true_1 _); reflexivity))
            (Hfields "max_age_days" ltac:(apply (bool_decide_eq_true_1 _); reflexivity))).
  unfold BaseStudyForm.clean. cbn [existsb age_fields].
  rewrite orb_false_r, !orb_assoc.
  destruct (is_missing (cleaned_data !! "min_age_years")
            || is_missing (cleaned_data !! "min_age_months")
            || is_missing (cleaned_data !! "min_age_days")).
  { rewrite Hmin. reflexivity. }
  destruct Hmin as [lo ->]. cbn [mbind result_bind orb].
  rewrite <- !orb_assoc in Hmax |- *.
  destruct (is_missing (cleaned_data !! "max_age_years")
            || (is_missing (cleaned_data !! "max_age_months")
                || is_missing (cleaned_data !! "max_age_days"))).
  { rewrite Hmax. reflexivity. }
  destruct Hmax as [hi ->]. cbn [mbind result_bind].
  destruct (fgt lo hi); [right | left]; reflexivity.
Qed.

Lemma clean_outcome_by_fields_witness :
  BaseStudyForm.clean age_data_without_max_days = Raise TypeError.
Proof.
  refine (clean_outcome_by_fields age_data_without_max_days _).
  intros key Hin. unfold age_fields in Hin.
  repeat (apply elem_of_cons in Hin as [->|Hin]);
    [right | right | right | right | right | left | inversion Hin];
    vm_compute; reflexivity.
Defined.

(** ** The study-type rename migration, continued *)

Section RenameOutcome.
Implicit Types (table : list StudyType) (row r : StudyType) (n : string).

Lemma objects_get_none n table :
  count_name n table = 0 -> objects_get n table = Raise DoesNotExist.
Proof.
  unfold count_name, objects_get.
  destruct (filter _ table); [reflexivity | discriminate].
Qed.

Lemma objects_get_many n table :
  2 <= count_name n table -> objects_get n table = Raise MultipleObjectsReturned.
Proof.
  unfold count_name, objects_get.
  destruct (filter _ table) as [|a [|b l]]; simpl; [lia | lia | reflexivity].
Qed.

Lemma rename_entry_outcome entry from_key to_key from to table :
  names_lookup entry from_key = Some from ->
  names_lookup entry to_key = Some to ->
  NoDup (map pk table) ->
  rename_entry entry from_key to_key table =
    match count_name from table with
    | 0 => Raise DoesNotExist
    | 1 => Return (map (renamed from to) table)
    | _ => Raise MultipleObjectsReturned
    end.
Proof.
  intros Hf Ht Hnd.
  destruct (count_name from table) as [|[|c]] eqn:E.
  - unfold rename_entry. rewrite Hf, Ht, objects_get_none by exact E. reflexivity.
  - apply (rename_entry_renames entry from_key to_key from to); assumption.
  - unfold rename_entry. rewrite Hf, Ht, objects_get_many by lia. reflexivity.
Qed.

Lemma study_type_names_outcome from_key to_key f1 t1 f2 t2 table :
  names_lookup "efp" from_key = Some f1 ->
  names_lookup "efp" to_key = Some t1 ->
  names_lookup "external" from_key = Some f2 ->
  names_lookup "external" to_key = Some t2 ->
  f1 <> t1 -> f2 <> f1 -> f2 <> t1 ->
  NoDup (map pk table) ->
  study_type_names from_key to_key table =
    rename_outcome (count_name f1 table) (count_name f2 table)
      (map (renamed f2 t2) (map (renamed f1 t1) table)).
Proof.
  intros L1f L1t L2f L2t D1 D2 D3 Hnd. unfold study_type_names.
  rewrite (rename_entry_outcome "efp" from_key to_key f1 t1) by assumption.
  destruct (count_name f1 table) as [|[|c]] eqn:E1; try reflexivity.
  cbn [mbind result_bind].
  rewrite (rename_entry_outcome "external" from_key to_key f2 t2);
    [| assumption | assumption | rewrite pks_renamed; exact Hnd].
  rewrite count_name_renamed by exact D1.
  rewrite decide_False by exact D3. rewrite decide_False by exact D2.
  destruct (count_name f2 table) as [|[|c]]; reflexivity.
Qed.

Lemma save_row_after to_key row table (to : string) :
  (names_lookup "efp" to_key = Some to
   \/ names_lookup "external" to_key = Some to) ->
  Forall2 (row_after to_key) table (save {| pk := pk row; name := to |} table).
Proof.
  intros Hto. unfold save. induction table as [|r rest IH]; constructor.
  - cbn [pk]. destruct (pk r =? pk row)%Z eqn:E.
    + apply Z.eqb_eq in E. split; [symmetry; exact E|]. right. exact Hto.
    + split; [reflexivity | left; reflexivity].
  - exact IH.
Qed.

Lemma rename_entry_row_after entry from_key to_key table table' :
  entry = "efp" \/ entry = "external" ->
  rename_entry entry from_key to_key table = Return table' ->
  Forall2 (row_after to_key) table table'.
Proof.
  intros Hentry. unfold rename_entry.
  destruct (names_lookup entry from_key) as [from|]; [|discriminate].
  destruct (names_lookup entry to_key) as [to|] eqn:Ht; [|discriminate].
  destruct (objects_get from table) as [row|e]; [|discriminate].
  cbn [mbind result_bind]. intros [= <-]. apply save_row_after.
  destruct Hentry as [-> | ->]; [left | right]; exact Ht.
Qed.

Lemma row_after_trans to_key (r1 r2 r3 : StudyType) :
  row_after to_key r1 r2 -> row_after to_key r2 r3 -> row_after to_key r1 r3.
Proof.
  intros [P1 H1] [P2 H2]. split; [congruence|].
  destruct H2 as [-> | H2]; [exact H1 | right; exact H2].
Qed.

Lemma Forall2_row_after_trans to_key (l1 l2 l3 : list StudyType) :
  Forall2 (row_after to_key) l1 l2 -> Forall2 (row_after to_key) l2 l3 ->
  Forall2 (row_after to_key) l1 l3.
Proof.
  intros H12. revert l3. induction H12 as [|a b l1 l2 Hab _ IH]; intros l3 H23.
  - inversion H23. constructor.
  - inversion H23 as [|b' c l2' l3' Hbc Hrest]; subst. constructor.
    + exact (row_after_trans to_key a b c Hab Hbc).
    + apply IH, Hrest.
Qed.
End RenameOutcome.

(** X13: on a catalog with distinct primary keys the outcome of the forward
    rename is fixed by the number of rows named
    "Ember Frame Player (default)" and the number named "External": with
    no row of the first name, or one of the first and none of the second, it
    raises [DoesNotExist]; with one row of each it returns the renamed
    catalog; with more than one row of a name that is looked up it raises
    [MultipleObjectsReturned]. The reverse rename does the same by the two
    new names. *)
Theorem study_type_rename_outcome (table : list StudyType) :
  NoDup (map pk table) ->
  update_study_type_names table
    = rename_outcome (count_name efp_old table) (count_name external_old table)
        (map forward_row table)
  /\ revert_study_type_names table
     = rename_outcome (count_name efp_new table)
         (count_name external_new table) (map reverse_row table).
Proof.
  intros Hnd. unfold update_study_type_names, revert_study_type_names. split.
  - replace (map forward_row table)
      with (map (renamed external_old external_new)
              (map (renamed efp_old efp_new) table))
      by (rewrite map_map; reflexivity).
    apply study_type_names_outcome;
      first [reflexivity | discriminate | assumption].
  - replace (map reverse_row table)
      with (map (renamed external_new external_old)
              (map (renamed efp_new efp_old) table))
      by (rewrite map_map; reflexivity).
    apply study_type_names_outcome;
      first [reflexivity | discriminate | assumption].
Qed.

Lemma study_type_rename_outcome_witness :
  update_study_type_names standard_catalog
    = rename_outcome 1 1 (map forward_row standard_catalog)
  /\ revert_study_type_names standard_catalog
     = rename_outcome 0 0 (map reverse_row standard_catalog).
Proof.
  apply (study_type_rename_outcome standard_catalog).
  apply (bool_decide_eq_true_1 _). reflexivity.
Defined.

(** X14: the forward rename cannot be run twice. On a catalog with distinct
    primary keys, one row of each old name and no row of a new name, a second
    forward run on the renamed catalog raises [DoesNotExist] and changes
    nothing; so does a reverse run on the catalog not yet renamed. *)
Theorem study_type_rename_not_rerunnable (table : list StudyType) :
  NoDup (map pk table) ->
  count_name efp_old table = 1 -> count_name external_old table = 1 ->
  count_name efp_new table = 0 -> count_name external_new table = 0 ->
  update_study_type_names (map forward_row table) = Raise DoesNotExist
  /\ revert_study_type_names table = Raise DoesNotExist.
Proof.
  intros Hnd C1 C2 C3 C4.
  unfold update_study_type_names, revert_study_type_names. split.
  - rewrite (study_type_names_outcome "old" "new" efp_old efp_new
               external_old external_new);
      try first [reflexivity | discriminate].
    + replace (map forward_row table)
        with (map (renamed external_old external_new)
                (map (renamed efp_old efp_new) table))
        by (rewrite map_map; reflexivity).
      rewrite (count_name_renamed external_old external_new efp_old)
        by discriminate.
      rewrite decide_False by discriminate.
      rewrite decide_False by discriminate.
      rewrite (count_name_renamed efp_old efp_new efp_old) by discriminate.
      rewrite decide_False by discriminate.
      rewrite decide_True by reflexivity. reflexivity.
    + unfold forward_row. rewrite <- (map_map (renamed efp_old efp_new)).
      rewrite !pks_renamed. exact Hnd.
  - rewrite (study_type_names_outcome "new" "old" efp_new efp_old
               external_new external_old);
      try first [reflexivity | discriminate | assumption].
    rewrite C3. reflexivity.
Qed.

Lemma study_type_rename_not_rerunnable_witness :
  update_study_type_names (map forward_row standard_catalog)
    = Raise DoesNotExist
  /\ revert_study_type_names standard_catalog = Raise DoesNotExist.
Proof.
  apply (study_type_rename_not_rerunnable standard_catalog).
  - apply (bool_decide_eq_true_1 _). reflexivity.
  - reflexivity.
  - reflexivity.
  - reflexivity.
  - reflexivity.
Defined.

(** X15: a run of [study_type_names] that succeeds, on any catalog and in
    either direction, leaves the rows where they are: as many rows as
    before, in the same order, each with its primary key, and each either
    untouched or carrying one of the two target names of the run. *)
Theorem study_type_names_keeps_rows (from_key to_key : string)
    (table table' : list StudyType) :
  study_type_names from_key to_key table = Return table' ->
  Forall2 (row_after to_key) table table'
  /\ map pk table' = map pk table
  /\ length table' = length table.
Proof.
  intros Hrun. unfold study_type_names in Hrun.
  destruct (rename_entry "efp" from_key to_key table) as [mid|e] eqn:E1;
    [|discriminate].
  cbn [mbind result_bind] in Hrun.
  assert (Hall : Forall2 (row_after to_key) table table').
  { apply (Forall2_row_after_trans to_key table mid table').
    - apply (rename_entry_row_after "efp" from_key); [left; reflexivity | exact E1].
    - apply (rename_entry_row_after "external" from_key);
        [right; reflexivity | exact Hrun]. }
  split; [exact Hall|].
  assert (Hpk : map pk table' = map pk table).
  { clear -Hall. induction Hall as [|r r' l l' [Hp _] _ IH]; [reflexivity|].
    cbn [map]. rewrite Hp, IH. reflexivity. }
  split; [exact Hpk|].
  rewrite <- (length_map pk table'), Hpk. apply length_map.
Qed.

Lemma study_type_names_keeps_rows_witness :
  Forall2 (row_after "new") standard_catalog (map forward_row standard_catalog)
  /\ map pk (map forward_row standard_catalog) = map pk standard_catalog
  /\ length (map forward_row standard_catalog) = length standard_catalog.
Proof.
  apply (study_type_names_keeps_rows "old" "new"). reflexivity.
Defined.

(** ** The salt migration *)

Section SaltFacts.
Context {Columns : Type}.
Variable uuid4 : nat -> Z.
Implicit Types (row r : Study Columns) (table rows pre : list (Study Columns)).

Lemma save_study_fresh row table :
  Forall (fun r => study_pk r <> study_pk row) table ->
  save_study row table = table.
Proof.
  unfold save_study. induction 1 as [|r rest Hr _ IH]; [reflexivity|].
  cbn [map]. rewrite IH. apply Z.eqb_neq in Hr. rewrite Hr. reflexivity.
Qed.

Lemma save_study_middle row row' pre rest :
  study_pk row' = study_pk row ->
  NoDup (map study_pk (pre ++ row :: rest)) ->
  save_study row' (pre ++ row :: rest) = pre ++ row' :: rest.
Proof.
  intros Hpk Hnd. rewrite map_app in Hnd. cbn [map] in Hnd.
  apply NoDup_app in Hnd as (_ & Hpre & Hnd).
  apply NoDup_cons in Hnd as [Hrest _].
  unfold save_study. rewrite map_app. cbn [map].
  f_equal; [|f_equal].
  - apply (save_study_fresh row' pre). rewrite Hpk. apply Forall_forall.
    intros r Hr E. apply (Hpre (study_pk r)).
    + apply list_elem_of_fmap_2, Hr.
    + rewrite E. left.
  - rewrite Hpk, Z.eqb_refl. reflexivity.
  - apply (save_study_fresh row' rest). rewrite Hpk. apply Forall_forall.
    intros r Hr E. apply Hrest. rewrite <- E. apply list_elem_of_fmap_2, Hr.
Qed.

(** The loop, part way: the rows still to come are the tail of the table. *)
Lemma salt_rows_tail rows : forall pre draws,
  NoDup (map study_pk (pre ++ rows)) ->
  salt_rows uuid4 rows draws (pre ++ rows)
    = (pre ++ salted uuid4 draws rows, draws + length rows).
Proof.
  induction rows as [|row rest IH]; intros pre draws Hnd.
  - cbn. rewrite Nat.add_0_r. reflexivity.
  - cbn [salt_rows salted length].
    change {| study_pk := study_pk row; salt := Some (uuid4 draws);
              columns := columns row |}
      with (with_salt (uuid4 draws) row).
    rewrite (save_study_middle row (with_salt (uuid4 draws) row) pre rest
               eq_refl Hnd).
    change (pre ++ with_salt (uuid4 draws) row :: rest)
      with (pre ++ [with_salt (uuid4 draws) row] ++ rest).
    rewrite app_assoc, IH.
    + rewrite <- app_assoc, Nat.add_succ_r. reflexivity.
    + rewrite <- app_assoc. rewrite map_app in Hnd |- *. exact Hnd.
Qed.

Lemma salted_lookup rows : forall draws i,
  salted uuid4 draws rows !! i
    = with_salt (uuid4 (draws + i)) <$> rows !! i.
Proof.
  induction rows as [|row rest IH]; intros draws i; [reflexivity|].
  destruct i as [|i]; cbn.
  - rewrite Nat.add_0_r. reflexivity.
  - rewrite IH, Nat.add_succ_r. reflexivity.
Qed.

Lemma salted_length rows : forall draws,
  length (salted uuid4 draws rows) = length rows.
Proof.
  induction rows as [|row rest IH]; intros draws; [reflexivity|].
  cbn. rewrite IH. reflexivity.
Qed.

Lemma salted_salts rows : forall draws,
  map salt (salted uuid4 draws rows)
    = map (fun n => Some (uuid4 n)) (seq draws (length rows)).
Proof.
  induction rows as [|row rest IH]; intros draws; [reflexivity|].
  cbn. rewrite IH. reflexivity.
Qed.
End SaltFacts.

(** X16: on a table with distinct primary keys [gen_salt] gives every study
    a salt, the one before it or not: the study at position [i] keeps its
    key and its other columns and gets the [i]-th draw made; no row is
    added, dropped or moved, and one draw is made per row. When the draws
    are pairwise different so are the salts. When the model has no salt
    field yet, nothing is drawn and the table stays as it is. *)
Theorem gen_salt_salts_every_row {Columns : Type} (uuid4 : nat -> Z)
    (draws : nat) (table : list (Study Columns)) :
  NoDup (map study_pk table) ->
  let done := gen_salt uuid4 true draws table in
  snd done = draws + length table
  /\ length (fst done) = length table
  /\ (forall i row, table !! i = Some row ->
        fst done !! i = Some (with_salt (uuid4 (draws + i)) row))
  /\ ((forall a b, uuid4 a = uuid4 b -> a = b) -> NoDup (map salt (fst done)))
  /\ gen_salt uuid4 false draws table = (table, draws).
Proof.
  intros Hnd done. subst done. unfold gen_salt.
  pose proof (salt_rows_tail uuid4 table [] draws Hnd) as Hrun.
  cbn [app] in Hrun. rewrite Hrun. cbn [fst snd].
  split; [reflexivity|]. split; [apply salted_length|]. split; [|split].
  - intros i row Hrow. rewrite salted_lookup, Hrow. reflexivity.
  - intros Hinj. rewrite salted_salts.
    assert (Hsome : Inj (=) (=) (fun n => Some (uuid4 n))).
    { intros a b [= E]. exact (Hinj a b E). }
    apply (NoDup_fmap_2 (fun n => Some (uuid4 n))), NoDup_seq.
  - reflexivity.
Qed.

Lemma gen_salt_salts_every_row_witness :
  fst (gen_salt sample_draws true 4 unsalted_studies)
    = [ {| study_pk := 7; salt := Some 1004%Z; columns := "first" |};
        {| study_pk := 3; salt := Some 1005%Z; columns := "second" |};
        {| study_pk := 9; salt := Some 1006%Z; columns := "third" |} ]
  /\ snd (gen_salt sample_draws true 4 unsalted_studies) = 7.
Proof.
  assert (Hnd : NoDup (map study_pk unsalted_studies))
    by (apply (bool_decide_eq_true_1 _); reflexivity).
  destruct (gen_salt_salts_every_row sample_draws 4 unsalted_studies Hnd)
    as (Hdraws & Hlen & Hrows & _).
  split; [|exact Hdraws].
  apply list_eq. intros [|[|[|i]]].
  - exact (Hrows 0 _ eq_refl).
  - exact (Hrows 1 _ eq_refl).
  - exact (Hrows 2 _ eq_refl).
  - reflexivity.
Defined.

(** ** The settings read from the environment *)

Section SplitFacts.
Variable sep : ascii.

Lemma split_char_sep_free (s : string) :
  Forall (fun piece => sep_free sep piece = true) (split_char sep s).
Proof.
  induction s as [|c s IH]; cbn [split_char].
  - repeat constructor.
  - destruct (Ascii.eqb c sep) eqn:E.
    + constructor; [reflexivity | exact IH].
    + destruct (split_char sep s) as [|piece pieces].
      * repeat constructor. unfold sep_free. cbn [string_forallb].
        rewrite E. reflexivity.
      * inversion IH as [|? ? Hp Hps]; subst. constructor; [|exact Hps].
        unfold sep_free in *. cbn [string_forallb]. rewrite E, Hp. reflexivity.
Qed.

Lemma split_char_one (h : string) :
  sep_free sep h = true -> split_char sep h = [h].
Proof.
  unfold sep_free. induction h as [|c h IH];
    cbn [string_forallb split_char]; [reflexivity|].
  intros H. apply andb_true_iff in H as [Hc Hh].
  apply negb_true_iff in Hc. rewrite Hc, (IH Hh). reflexivity.
Qed.

Lemma split_char_app (h rest : string) :
  sep_free sep h = true ->
  split_char sep (h +:+ String sep rest) = h :: split_char sep rest.
Proof.
  unfold sep_free. induction h as [|c h IH]; cbn [string_forallb].
  - intros _. change (EmptyString +:+ String sep rest) with (String sep rest).
    cbn [split_char]. rewrite Ascii.eqb_refl. reflexivity.
  - intros H. apply andb_true_iff in H as [Hc Hh].
    apply negb_true_iff in Hc.
    change (String c h +:+ String sep rest)
      with (String c (h +:+ String sep rest)).
    cbn [split_char]. rewrite Hc, (IH Hh). reflexivity.
Qed.

Lemma split_char_join (h : string) (hosts : list string) :
  Forall (fun h => sep_free sep h = true) (h :: hosts) ->
  split_char sep (join (String sep EmptyString) (h :: hosts)) = h :: hosts.
Proof.
  revert h. induction hosts as [|h' hosts IH]; intros h Hall.
  - inversion Hall; subst. apply split_char_one. assumption.
  - inversion Hall as [|? ? Hh Hrest]; subst.
    change (join (String sep EmptyString) (h :: h' :: hosts))
      with (h +:+ String sep (join (String sep EmptyString) (h' :: hosts))).
    rewrite split_char_app by exact Hh. rewrite (IH h' Hrest). reflexivity.
Qed.
End SplitFacts.

Lemma host_name_parts (h : string) :
  host_name h = true <-> h <> EmptyString /\ sep_free " " h = true.
Proof.
  unfold host_name, sep_free. rewrite andb_true_iff, negb_true_iff.
  rewrite String.eqb_neq. reflexivity.
Qed.

(** X17: [ALLOWED_HOSTS] holds the pieces of the environment variable
    between spaces, the empty ones left out: every entry is a non-empty
    text without a space, an unset variable gives the empty list, and a
    list of such host names written with single spaces between them is
    read back as it is. *)
Theorem allowed_hosts_parsed (environ : gmap string string) :
  Forall (fun h => host_name h = true) (ALLOWED_HOSTS environ)
  /\ (environ !! "ALLOWED_HOSTS" = None -> ALLOWED_HOSTS environ = [])
  /\ (forall hosts : list string,
        Forall (fun h => host_name h = true) hosts ->
        ALLOWED_HOSTS (<["ALLOWED_HOSTS" := join " " hosts]> environ) = hosts).
Proof.
  split; [|split].
  - unfold ALLOWED_HOSTS. apply Forall_forall. intros h Hh.
    apply list_elem_of_filter in Hh as [Hne Hh].
    apply host_name_parts. split.
    + apply String.eqb_neq, Hne.
    + pose proof (split_char_sep_free " "
                    (py_str (environ_get environ "ALLOWED_HOSTS" (PyStr EmptyString))))
        as Hall.
      rewrite Forall_forall in Hall. apply Hall, Hh.
  - intros Hunset. unfold ALLOWED_HOSTS, environ_get. rewrite Hunset.
    reflexivity.
  - intros hosts Hall. unfold ALLOWED_HOSTS, environ_get.
    rewrite lookup_insert_eq. cbn [py_str].
    destruct hosts as [|h hosts]; [reflexivity|].
    rewrite (split_char_join " " h hosts).
    + clear -Hall. induction Hall as [|x l Hx _ IH]; [reflexivity|].
      rewrite filter_cons, IH. apply host_name_parts in Hx as [Hx _].
      rewrite decide_True; [reflexivity|]. apply String.eqb_neq, Hx.
    + eapply Forall_impl; [exact Hall|]. intros x Hx.
      apply host_name_parts in Hx as [_ Hx]. exact Hx.
Qed.

Lemma truthy_environ_get (environ : gmap string string) (key : string)
    (default : pyval) :
  truthy (environ_get environ key default) =
    match environ !! key with
    | Some text => negb (String.eqb text EmptyString)
    | None => truthy default
    end.
Proof. unfold environ_get. destruct (environ !! key); reflexivity. Qed.

(** X18: a switch read from the environment is on for any non-empty text.
    [DEBUG] is on exactly when the variable is set to a non-empty text, so
    also for the text False; [EMAIL_USE_TLS] is falsy only when its variable
    is set to the empty text. The raven app is listed, as the last of
    [INSTALLED_APPS], and [RAVEN_CONFIG] is bound exactly when [DEBUG] is
    off; in both cases no app is listed twice. *)
Theorem environment_switches (environ : gmap string string) :
  (DEBUG environ = true
     <-> exists text, environ !! "DEBUG" = Some text /\ text <> EmptyString)
  /\ DEBUG (<["DEBUG" := "False"]> environ) = true
  /\ (truthy (EMAIL_USE_TLS environ) = false
        <-> environ !! "EMAIL_USE_TLS" = Some EmptyString)
  /\ ("raven.contrib.django.raven_compat" ∈ INSTALLED_APPS environ
        <-> DEBUG environ = false)
  /\ (DEBUG environ = false ->
        INSTALLED_APPS environ
          = base_installed_apps ++ ["raven.contrib.django.raven_compat"])
  /\ (is_Some (RAVEN_CONFIG environ) <-> DEBUG environ = false)
  /\ NoDup (INSTALLED_APPS environ).
Proof.
  split; [|split; [|split; [|split; [|split; [|split]]]]].
  - unfold DEBUG. rewrite truthy_environ_get.
    destruct (environ !! "DEBUG") as [text|]; cbn [truthy].
    + rewrite negb_true_iff, String.eqb_neq. split.
      * intros H. exists text. split; [reflexivity | exact H].
      * intros (t & [= <-] & H). exact H.
    + split; [discriminate | intros (t & Ht & _); discriminate].
  - unfold DEBUG. rewrite truthy_environ_get, lookup_insert_eq. reflexivity.
  - unfold EMAIL_USE_TLS. rewrite truthy_environ_get.
    destruct (environ !! "EMAIL_USE_TLS") as [text|]; cbn [truthy].
    + rewrite negb_false_iff, String.eqb_eq. split; congruence.
    + split; discriminate.
  - unfold INSTALLED_APPS. destruct (DEBUG environ); cbn [negb].
    + split; [|discriminate]. intros Hin. exfalso. revert Hin.
      apply (bool_decide_eq_false_1 _). reflexivity.
    + split; [reflexivity|]. intros _.
      apply (bool_decide_eq_true_1 _). reflexivity.
  - intros Hoff. unfold INSTALLED_APPS. rewrite Hoff. reflexivity.
  - unfold RAVEN_CONFIG. destruct (DEBUG environ); cbn [negb].
    + split; [intros [x Hx]|]; discriminate.
    + split; [reflexivity | intros _; eexists; reflexivity].
  - unfold INSTALLED_APPS.
    destruct (DEBUG environ); cbn [negb];
      apply (bool_decide_eq_true_1 _); reflexivity.
Qed.

(** X19: the addresses of static and media files are taken from the
    environment only together with Google credentials. While
    [GOOGLE_APPLICATION_CREDENTIALS] is unset or empty, setting [STATIC_URL]
    or [MEDIA_URL] changes nothing: the two are [/static/] and [/media/],
    and neither the static-files storage nor the bucket name is bound. Once
    the credentials variable holds a text, the two variables are used as
    they are and the storage and the bucket name are bound. *)
Theorem storage_follows_credentials (environ : gmap string string)
    (url : string) :
  let with_static := <["STATIC_URL" := url]> environ in
  let with_media := <["MEDIA_URL" := url]> environ in
  (use_cloud_storage environ = true
     <-> exists text, environ !! "GOOGLE_APPLICATION_CREDENTIALS" = Some text
                      /\ text <> EmptyString)
  /\ (use_cloud_storage environ = false ->
        STATIC_URL with_static = PyStr "/static/"
        /\ MEDIA_URL with_media = PyStr "/media/"
        /\ STATICFILES_STORAGE environ = None
        /\ GS_BUCKET_NAME environ = None)
  /\ (use_cloud_storage environ = true ->
        STATIC_URL with_static = PyStr url
        /\ MEDIA_URL with_media = PyStr url
        /\ is_Some (STATICFILES_STORAGE environ)
        /\ is_Some (GS_BUCKET_NAME environ)).
Proof.
  intros with_static with_media.
  assert (Hs : use_cloud_storage with_static = use_cloud_storage environ).
  { unfold use_cloud_storage, environ_get, with_static.
    rewrite lookup_insert_ne by discriminate. reflexivity. }
  assert (Hm : use_cloud_storage with_media = use_cloud_storage environ).
  { unfold use_cloud_storage, environ_get, with_media.
    rewrite lookup_insert_ne by discriminate. reflexivity. }
  split; [|split].
  - unfold use_cloud_storage. rewrite truthy_environ_get.
    destruct (environ !! "GOOGLE_APPLICATION_CREDENTIALS") as [text|];
      cbn [truthy].
    + rewrite negb_true_iff, String.eqb_neq. split.
      * intros H. exists text. split; [reflexivity | exact H].
      * intros (t & [= <-] & H). exact H.
    + split; [discriminate | intros (t & Ht & _); discriminate].
  - intros Hoff. unfold STATIC_URL, MEDIA_URL, STATICFILES_STORAGE, GS_BUCKET_NAME.
    rewrite Hs, Hm, Hoff. repeat split.
  - intros Hon. unfold STATIC_URL, MEDIA_URL, STATICFILES_STORAGE, GS_BUCKET_NAME.
    rewrite Hs, Hm, Hon. unfold environ_get, with_static, with_media.
    rewrite !lookup_insert_eq. repeat split; eexists; reflexivity.
Qed.
